(** * HeaderHawk: a shallow embedding of [headerhawk.py]

    The development models the tool: URL normalisation
    ([validate_and_format_url]), the two-attempt header fetcher
    ([get_headers]), value truncation ([truncate_value]), the
    sequential batch loop ([process_urls]), the table
    ([display_results]), the CSV export ([save_to_csv]) and [main].

    Modelling conventions.
    - A Python [str] is a Rocq [string]; one [ascii] stands for one
      character.  HTTP header names and values reach the program decoded
      as latin-1, so this is exact for them.
    - A Python [dict] is a [gmap] with string keys.
    - Effects are explicit: every call to [console.print], [requests.get]
      and [time.sleep] that goes through appends an [event] to a trace.
      [time.sleep] is taken to return normally.
    - The external libraries are parameters: [validators_url] stands for
      [validators.url] and [requests_get] for [requests.get], which may
      answer differently depending on everything that happened before the
      call.  [console.print] renders its argument as [rich] markup and
      raises what [rich] raises, before it prints anything:
      [markup_error] is the exception [rich] raises for a line, if any,
      and [table_error] the one it raises for a table.  The lines that
      hold nothing but the program's own text and numbers have balanced
      tags, and [rich] prints them.
    - Exceptions are values of type [exn]; a computation returns
      [Ok v] or [Raise e].  Only subclasses of [Exception] are modelled. *)

From stdpp Require Import gmap strings list fin_maps pretty.
From Stdlib Require Import Ascii.

(** ** Constants *)

Definition MAX_URLS : nat := 20.

Definition HEADERS_TO_CHECK : list string :=
  [ "content-security-policy";
    "x-frame-options";
    "strict-transport-security";
    "referrer-policy" ].

Definition MAX_HEADER_LENGTH : nat := 80.
Definition DEFAULT_TIMEOUT : nat := 10.
Definition RATE_LIMIT_DELAY : nat := 2.

Definition USER_AGENT : string :=
  "HeaderHawk/1.0 (Security Header Analyzer; https://github.com/your-repo/headerhawk)".

Definition REQUEST_HEADERS : list (string * string) :=
  [ ("User-Agent", USER_AGENT);
    ("Accept", "text/html,application/xhtml+xml,application/xml;q=0.9,*/*;q=0.8");
    ("Accept-Language", "en-US,en;q=0.5");
    ("Accept-Encoding", "gzip, deflate");
    ("DNT", "1") ].

(** ** Python values, exceptions and results *)

(** The values a header dictionary can hold as far as
    [isinstance(value, str)] can tell. *)
Inductive pyval : Type :=
  | PStr (s : string)
  | PNotStr.

(** Exception classes, as far as the [except] clauses distinguish them. *)
Inductive exn_class : Type :=
  | ValueError
  | SSLError
  | ConnectionError
  | Timeout
  | TooManyRedirects
  | MarkupError
  | OtherException.

Record exn : Type := MkExn {
  exn_cls : exn_class;
  exn_str : string          (* str(e) *)
}.

(** [except requests.exceptions.SSLError] *)
Definition is_SSLError (e : exn) : bool :=
  match exn_cls e with
  | SSLError => true
  | _ => false
  end.

Inductive result (A : Type) : Type :=
  | Ok (a : A)
  | Raise (e : exn).

Arguments Ok {A} a.
Arguments Raise {A} e.

(** ** Strings *)

(** [str.lower] on a latin-1 character: A-Z and the accented capitals
    (192-222 except the multiplication sign 215) move by 32. *)
Definition lower_ascii (c : ascii) : ascii :=
  let n := nat_of_ascii c in
  if ((65 <=? n) && (n <=? 90)) || ((192 <=? n) && (n <=? 222) && negb (n =? 215))
  then ascii_of_nat (n + 32)
  else c.

Fixpoint lower (s : string) : string :=
  match s with
  | EmptyString => EmptyString
  | String c s' => String (lower_ascii c) (lower s')
  end.

(** [s.startswith((p1, p2, ...))] *)
Definition startswith (s : string) (prefixes : list string) : bool :=
  existsb (fun p => String.prefix p s) prefixes.

(** [s[:n]] *)
Definition slice_to (n : nat) (s : string) : string := String.substring 0 n s.

(** ** The pure functions *)

(** [truncate_value] *)
Definition truncate_value (value : string) : string :=
  if decide (MAX_HEADER_LENGTH < String.length value)
  then slice_to MAX_HEADER_LENGTH value +:+ "..."
  else value.

(** ** Requests, responses and the observable trace *)

(** The keyword arguments of [requests.get]. *)
Record request : Type := MkRequest {
  req_url : string;
  req_timeout : nat;
  req_allow_redirects : bool;
  req_verify : bool;
  req_headers : list (string * string)
}.

(** [response.headers.items()]: the header names as the server cased them,
    with their values. *)
Record response : Type := MkResponse {
  resp_headers : list (string * string)
}.

Inductive event : Type :=
  | Print (s : string)          (* console.print(s) *)
  | Get (r : request)           (* requests.get(...) *)
  | Sleep (secs : nat).         (* time.sleep(secs) *)

(** ** Computations

    A computation runs in a frame of local variables [L] and on the trace
    of what has been observed so far.  A raised exception keeps the frame
    and the trace as they were when it was raised, which is what an
    [except] clause of the same function sees. *)

Definition M (L A : Type) : Type := L → list event → result A * L * list event.

Definition m_ret {L A} (a : A) : M L A := λ l tr, (Ok a, l, tr).

Definition m_bind {L A B} (f : A → M L B) (m : M L A) : M L B :=
  λ l tr,
    match m l tr with
    | (Ok a, l', tr') => f a l' tr'
    | (Raise e, l', tr') => (Raise e, l', tr')
    end.

Global Instance M_ret {L} : MRet (M L) := @m_ret L.
Global Instance M_bind {L} : MBind (M L) := @m_bind L.

(** [try: body  except Exception as e: handler e].  An exception raised by
    the handler itself is not caught again. *)
Definition try_except {L A} (body : M L A) (handler : exn → M L A) : M L A :=
  λ l tr,
    match body l tr with
    | (Ok a, l', tr') => (Ok a, l', tr')
    | (Raise e, l', tr') => handler e l' tr'
    end.

(** Reading and updating the local variables. *)
Definition gets {L A} (f : L → A) : M L A := λ l tr, (Ok (f l), l, tr).
Definition modify {L} (f : L → L) : M L unit := λ l tr, (Ok tt, f l, tr).

(** Calling a function: it runs in a frame of its own and leaves the
    caller's locals alone. *)
Definition call {L A} (f : M unit A) : M L A :=
  λ l tr, let '(r, _, tr') := f tt tr in (r, l, tr').

(** A function without effects: it returns or raises. *)
Definition call_pure {L A} (r : result A) : M L A := λ l tr, (r, l, tr).

(** [console.print(s)] for a line that carries text from outside the
    program: a URL, the message of an exception.  [rich] parses the line
    as markup before it prints anything, and [markup_error s] is the
    exception it raises for [s], if any. *)
Definition console_print {L} (markup_error : string → option exn) (s : string)
  : M L unit :=
  λ l tr,
    match markup_error s with
    | Some e => (Raise e, l, tr)
    | None => (Ok tt, l, tr ++ [Print s])
    end.

(** [console.print(s)] for a line made of the program's own text and of
    numbers: its tags are balanced and [rich] prints it. *)
Definition console_print_fixed {L} (s : string) : M L unit :=
  λ l tr, (Ok tt, l, tr ++ [Print s]).

Definition time_sleep {L} (secs : nat) : M L unit :=
  λ l tr, (Ok tt, l, tr ++ [Sleep secs]).

(** ** Dictionaries *)

(** [{k: v for k, v in items}]: a key that occurs twice keeps its last
    value. *)
Definition dict_of_items {V} (items : list (string * V)) : gmap string V :=
  foldl (λ d kv, <[kv.1 := kv.2]> d) ∅ items.

(** [d.get(k, default)] *)
Definition dict_get {V} (d : gmap string V) (k : string) (dflt : V) : V :=
  default dflt (d !! k).

(** [{k.lower(): v for k, v in response.headers.items()}] *)
Definition lower_headers (resp : response) : gmap string pyval :=
  dict_of_items ((λ kv, (lower kv.1, PStr kv.2)) <$> resp_headers resp).

(** [{header: f"Error: {str(e)}" for header in HEADERS_TO_CHECK}] *)
Definition error_headers (e : exn) : gmap string pyval :=
  dict_of_items ((λ header, (header, PStr ("Error: " +:+ exn_str e))) <$> HEADERS_TO_CHECK).

(** Lines 104-110 of [process_urls]: the record of one URL. *)
Definition build_result (url : string) (headers : gmap string pyval)
  : gmap string string :=
  foldl
    (λ result header,
       let value := dict_get headers header (PStr "Missing") in
       match value with
       | PStr s => <[header := truncate_value s]> result   (* isinstance(value, str) *)
       | PNotStr => <[header := "Missing"]> result
       end)
    {[ "URL" := url ]}
    HEADERS_TO_CHECK.

(** ** The messages and the request of the program *)

(** The call [requests.get(url, timeout=DEFAULT_TIMEOUT,
    allow_redirects=True, verify=..., headers=REQUEST_HEADERS)]. *)
Definition get_request (url : string) (verify : bool) : request :=
  {| req_url := url;
     req_timeout := DEFAULT_TIMEOUT;
     req_allow_redirects := true;
     req_verify := verify;
     req_headers := REQUEST_HEADERS |}.

(** [f"[yellow]Warning: SSL verification failed for {url}[/yellow]"] *)
Definition ssl_warning (url : string) : string :=
  "[yellow]Warning: SSL verification failed for " +:+ url +:+ "[/yellow]".

(** [f"[cyan]Processing {url} ({index}/{total_urls})[/cyan]"] *)
Definition progress_line (url : string) (index total_urls : nat) : string :=
  "[cyan]Processing " +:+ url +:+ " (" +:+ pretty index +:+ "/"
    +:+ pretty total_urls +:+ ")[/cyan]".

(** [f"[yellow]Rate limiting: waiting {RATE_LIMIT_DELAY} seconds...[/yellow]"] *)
Definition rate_limit_line : string :=
  "[yellow]Rate limiting: waiting " +:+ pretty RATE_LIMIT_DELAY
    +:+ " seconds...[/yellow]".

(** [f"[red]Error processing {url}: {str(e)}[/red]"] *)
Definition error_line (url : string) (e : exn) : string :=
  "[red]Error processing " +:+ url +:+ ": " +:+ exn_str e +:+ "[/red]".

(** [ValueError(f"Invalid URL format: {url}")] *)
Definition invalid_url (url : string) : exn :=
  MkExn ValueError ("Invalid URL format: " +:+ url).

(** ** The local variables of [process_urls] that outlive an exception *)

Record frame : Type := MkFrame {
  url : string;
  results : list (gmap string string)
}.

Definition set_url (u : string) (f : frame) : frame :=
  {| url := u; results := results f |}.

(** [results.append(r)] *)
Definition results_append (r : gmap string string) (f : frame) : frame :=
  {| url := url f; results := results f ++ [r] |}.

(** ** The program *)

Section Program.

(** [validators.url]: [true] when the string passes validation. *)
Variable validators_url : string → bool.

(** [rich]'s markup parser: the exception it raises for a line, if any. *)
Variable markup_error : string → option exn.

(** [requests.get]: the answer to a request, given the trace so far. *)
Variable requests_get : list event → request → result response.

Definition do_requests_get {L} (r : request) : M L response :=
  λ l tr, (requests_get tr r, l, tr ++ [Get r]).

(** [validate_and_format_url] *)
Definition validate_and_format_url (url : string) : result string :=
  let url :=
    if negb (startswith url ["http://"; "https://"])
    then "https://" +:+ url
    else url in
  if negb (validators_url url)
  then Raise (invalid_url url)
  else Ok url.

(** [get_headers] *)
Definition get_headers (url : string) : M unit (gmap string pyval) :=
  try_except
    (response ← do_requests_get (get_request url true);
     mret (lower_headers response))
    (λ e,
       if is_SSLError e then
         console_print markup_error (ssl_warning url);;
         try_except
           (response ← do_requests_get (get_request url false);
            mret (lower_headers response))
           (λ e, mret (error_headers e))
       else mret (error_headers e)).

(** The body of the [for] loop of [process_urls]; the loop header has
    bound [url] to the raw input. *)
Definition process_one (total_urls index : nat) : M frame unit :=
  try_except
    (raw ← gets url;
     formatted ← call_pure (validate_and_format_url raw);
     modify (set_url formatted);;
     u ← gets url;
     console_print markup_error (progress_line u index total_urls);;
     headers ← call (get_headers u);
     let result := build_result u headers in
     modify (results_append result);;
     if decide (index < total_urls) then
       console_print_fixed rate_limit_line;;
       time_sleep RATE_LIMIT_DELAY
     else mret tt)
    (λ e,
       u ← gets url;
       console_print markup_error (error_line u e)).

(** [for index, url in enumerate(urls, index): ...] *)
Fixpoint for_enumerate (total_urls index : nat) (urls : list string)
  : M frame unit :=
  match urls with
  | [] => mret tt
  | u :: rest =>
      modify (set_url u);;
      process_one total_urls index;;
      for_enumerate total_urls (S index) rest
  end.

(** [process_urls].  The local [url] is unbound before the loop; it is
    never read before the loop header binds it. *)
Definition process_urls (urls : list string)
  : M unit (list (gmap string string)) :=
  λ _ tr,
    let total_urls := length urls in
    match for_enumerate total_urls 1 urls {| url := ""; results := [] |} tr with
    | (Ok _, f, tr') => (Ok (results f), tt, tr')
    | (Raise e, _, tr') => (Raise e, tt, tr')
    end.

End Program.

Arguments validate_and_format_url validators_url url : simpl never.

(** ** Notions used to state the properties *)

(** What the loop does after a record when [index] is not the last one. *)
Definition pause (total_urls index : nat) : list event :=
  if decide (index < total_urls)
  then [Print rate_limit_line; Sleep RATE_LIMIT_DELAY]
  else [].

Definition is_sleep (ev : event) : bool :=
  match ev with
  | Sleep _ => true
  | _ => false
  end.

Definition count_sleeps (tr : list event) : nat :=
  length (List.filter is_sleep tr).

(** The events of one call of [get_headers]: the verified request alone,
    or the verified request, the warning and the unverified request. *)
Definition fetch_trace (url : string) (evs : list event) : Prop :=
  evs = [Get (get_request url true)] ∨
  evs = [Get (get_request url true); Print (ssl_warning url);
         Get (get_request url false)].

(** What a record holds for a tracked header, given the header dictionary
    of the fetch. *)
Definition recorded_value (headers : gmap string pyval) (header : string) : string :=
  match dict_get headers header (PStr "Missing") with
  | PStr s => truncate_value s
  | PNotStr => "Missing"
  end.

(** A record has the URL field and one field per tracked header. *)
Definition tracked_fields (r : gmap string string) : Prop :=
  dom r = {[ "URL"; "content-security-policy"; "x-frame-options";
             "strict-transport-security"; "referrer-policy" ]}.

(** How the handling of one input ends: with a record, without one, or
    with an exception that leaves the loop. *)
Inductive outcome : Type :=
  | Recorded (r : gmap string string)
  | Skipped
  | Aborted (e : exn).

Section Notions.

Variable validators_url : string → bool.
Variable markup_error : string → option exn.
Variable requests_get : list event → request → result response.

(** The normalised URL of a raw input, when it has one. *)
Definition normalized (raw : string) : option string :=
  match validate_and_format_url validators_url raw with
  | Ok n => Some n
  | Raise _ => None
  end.

(** The fetch at trace [tr] obtains the response [resp], from the first
    attempt or from the fallback. *)
Definition fetch_succeeds (url : string) (tr : list event) (resp : response) : Prop :=
  requests_get tr (get_request url true) = Ok resp ∨
  ∃ e, requests_get tr (get_request url true) = Raise e ∧
       is_SSLError e = true ∧
       requests_get
         (tr ++ [Get (get_request url true); Print (ssl_warning url)])
         (get_request url false) = Ok resp.

(** The fetch at trace [tr] fails with [e]: at the first attempt with
    something else than a certificate failure, or at the fallback. *)
Definition fetch_fails (url : string) (tr : list event) (e : exn) : Prop :=
  (requests_get tr (get_request url true) = Raise e ∧ is_SSLError e = false) ∨
  ∃ e1, requests_get tr (get_request url true) = Raise e1 ∧
        is_SSLError e1 = true ∧
        requests_get
          (tr ++ [Get (get_request url true); Print (ssl_warning url)])
          (get_request url false) = Raise e.

(** The [except] clause of the loop, for the exception [e] raised while
    [url] was bound to [u]: the error line is printed, or [rich] raises
    for it and the exception leaves the loop. *)
Definition handle_error (u : string) (e : exn) (tr : list event)
  : outcome * list event :=
  match markup_error (error_line u e) with
  | None => (Skipped, tr ++ [Print (error_line u e)])
  | Some e' => (Aborted e', tr)
  end.

(** The handling of the raw input number [index], read off
    [process_one]: how it ends and the trace it leaves. *)
Definition iteration (total_urls index : nat) (raw : string) (tr : list event)
  : outcome * list event :=
  match validate_and_format_url validators_url raw with
  | Raise e => handle_error raw e tr
  | Ok n =>
      match markup_error (progress_line n index total_urls) with
      | Some e => handle_error n e tr
      | None =>
          match
            get_headers markup_error requests_get n tt
              (tr ++ [Print (progress_line n index total_urls)])
          with
          | (Ok headers, _, tr1) =>
              (Recorded (build_result n headers), tr1 ++ pause total_urls index)
          | (Raise e, _, tr1) => handle_error n e tr1
          end
      end
  end.

(** One run of the loop, from input number [index] on: the exception
    that ended it, if any, the records appended and the trace left. *)
Inductive batch_run (total_urls : nat)
  : nat → list string → list event →
    option exn → list (gmap string string) → list event → Prop :=
  | run_done index tr :
      batch_run total_urls index [] tr None [] tr
  | run_record index raw rest tr r tr1 exc rs tr' :
      iteration total_urls index raw tr = (Recorded r, tr1) →
      batch_run total_urls (S index) rest tr1 exc rs tr' →
      batch_run total_urls index (raw :: rest) tr exc (r :: rs) tr'
  | run_skip index raw rest tr tr1 exc rs tr' :
      iteration total_urls index raw tr = (Skipped, tr1) →
      batch_run total_urls (S index) rest tr1 exc rs tr' →
      batch_run total_urls index (raw :: rest) tr exc rs tr'
  | run_abort index raw rest tr e tr1 :
      iteration total_urls index raw tr = (Aborted e, tr1) →
      batch_run total_urls index (raw :: rest) tr (Some e) [] tr1.

(** What the handling of one raw input can leave on the trace, by the
    way it ends. *)
Definition segment_of (total_urls index : nat) (raw : string) (o : outcome)
    (seg : list event) : Prop :=
  match validate_and_format_url validators_url raw with
  | Raise e =>
      (o = Skipped ∧ seg = [Print (error_line raw e)]) ∨
      (∃ e', o = Aborted e' ∧ seg = [])
  | Ok n =>
      match markup_error (progress_line n index total_urls) with
      | Some e =>
          (o = Skipped ∧ seg = [Print (error_line n e)]) ∨
          (∃ e', o = Aborted e' ∧ seg = [])
      | None =>
          (∃ headers fetch,
             o = Recorded (build_result n headers) ∧ fetch_trace n fetch ∧
             seg = Print (progress_line n index total_urls)
                     :: fetch ++ pause total_urls index) ∨
          (∃ e, o = Skipped ∧
             seg = [Print (progress_line n index total_urls);
                    Get (get_request n true); Print (error_line n e)]) ∨
          (∃ e, o = Aborted e ∧
             seg = [Print (progress_line n index total_urls);
                    Get (get_request n true)])
      end
  end.

(** The console accepts what the handler of the loop has to print for
    the input [raw] at position [index]: the error line of the validation
    error, or, for an input that normalises to [n], the error line of the
    exception that [rich] raises for the progress line or for the warning
    of the fetch, when it raises one. *)
Definition error_after (n s : string) : Prop :=
  match markup_error s with
  | Some e => markup_error (error_line n e) = None
  | None => True
  end.

Definition error_line_accepted (total_urls index : nat) (raw : string) : Prop :=
  match validate_and_format_url validators_url raw with
  | Raise e => markup_error (error_line raw e) = None
  | Ok n =>
      error_after n (progress_line n index total_urls) ∧
      error_after n (ssl_warning n)
  end.

(** The console accepts every line that carries the input [raw] at
    position [index]: its progress line and the warning of its fetch when
    it normalises, its error line when it does not. *)
Definition lines_accepted (total_urls index : nat) (raw : string) : Prop :=
  match validate_and_format_url validators_url raw with
  | Raise e => markup_error (error_line raw e) = None
  | Ok n =>
      markup_error (progress_line n index total_urls) = None ∧
      markup_error (ssl_warning n) = None
  end.

(** [P index raw] for every input with its position, counted as
    [enumerate(urls, index)] counts. *)
Fixpoint for_each_input (P : nat → string → Prop) (index : nat) (urls : list string)
  : Prop :=
  match urls with
  | [] => True
  | raw :: rest => P index raw ∧ for_each_input P (S index) rest
  end.

Definition error_lines_accepted (urls : list string) : Prop :=
  for_each_input (error_line_accepted (length urls)) 1 urls.

Definition console_accepts (urls : list string) : Prop :=
  for_each_input (lines_accepted (length urls)) 1 urls.


End Notions.

(** ** Sample environments

    Stand-ins for the libraries, used to run the program on concrete
    inputs. *)

Fixpoint no_space (s : string) : bool :=
  match s with
  | EmptyString => true
  | String c s' => negb (Ascii.eqb c (ascii_of_nat 32)) && no_space s'
  end.

(** Accepts the strings that carry a scheme and no blank. *)
Definition sample_validator (s : string) : bool :=
  startswith s ["http://"; "https://"] && no_space s.

(** A server that answers every request with one header. *)
Definition net_hsts (tr : list event) (r : request) : result response :=
  Ok {| resp_headers := [("Strict-Transport-Security", "max-age=63072000")] |}.

(** A server with a certificate that does not verify. *)
Definition net_selfsigned (tr : list event) (r : request) : result response :=
  if req_verify r
  then Raise (MkExn SSLError "certificate verify failed")
  else Ok {| resp_headers := [("X-Frame-Options", "DENY")] |}.

(** No server at all. *)
Definition net_down (tr : list event) (r : request) : result response :=
  Raise (MkExn ConnectionError "connection refused").

(** A stand-in for the markup parser that knows one fault, the closing
    tag [/x] that nothing opened, and reports it as [rich] does. *)
Definition sample_markup (s : string) : option exn :=
  match String.index 0 "[/x]" s with
  | Some position =>
      Some (MkExn MarkupError
              ("closing tag '[/x]' at position " +:+ pretty position
                 +:+ " doesn't match any open tag"))
  | None => None
  end.

(** * The rest of the program: display, export and [main] *)

(** ** More of [str] *)

(** [str.upper] on ASCII text.  The program applies it to the entries of
    [HEADERS_TO_CHECK] only, which are ASCII. *)
Definition upper_ascii (c : ascii) : ascii :=
  let n := nat_of_ascii c in
  if (97 <=? n) && (n <=? 122) then ascii_of_nat (n - 32) else c.

Fixpoint upper (s : string) : string :=
  match s with
  | EmptyString => EmptyString
  | String c s' => String (upper_ascii c) (upper s')
  end.

(** [str.isspace] on a latin-1 character: tab to carriage return, the
    four separators 28-31, the blank, next-line and the no-break space. *)
Definition is_space (c : ascii) : bool :=
  let n := nat_of_ascii c in
  ((9 <=? n) && (n <=? 13)) || ((28 <=? n) && (n <=? 32)) || (n =? 133) || (n =? 160).

Fixpoint lstrip (s : string) : string :=
  match s with
  | EmptyString => EmptyString
  | String c s' => if is_space c then lstrip s' else s
  end.

Fixpoint rstrip (s : string) : string :=
  match s with
  | EmptyString => EmptyString
  | String c s' =>
      match rstrip s' with
      | EmptyString => if is_space c then EmptyString else String c EmptyString
      | r => String c r
      end
  end.

(** [s.strip()] *)
Definition strip (s : string) : string := rstrip (lstrip s).

(** [sep.join(l)] *)
Fixpoint str_join (sep : string) (l : list string) : string :=
  match l with
  | [] => ""
  | [s] => s
  | s :: l' => s +:+ sep +:+ str_join sep l'
  end.

(** [repr] of a name without quotes or control characters. *)
Definition repr (s : string) : string := "'" +:+ s +:+ "'".

(** ** Loops over lists *)

(** [for x in l: f x] *)
Fixpoint for_each {L A} (f : A → M L unit) (l : list A) : M L unit :=
  match l with
  | [] => mret tt
  | x :: l' => f x;; for_each f l'
  end.

(** [[f x for x in l]] *)
Fixpoint list_comp {L A B} (f : A → M L B) (l : list A) : M L (list B) :=
  match l with
  | [] => mret []
  | x :: l' => y ← f x; ys ← list_comp f l'; mret (y :: ys)
  end.

(** [for x in l: acc = f acc x], for a local [acc] that no handler reads. *)
Fixpoint for_fold {L A B} (f : B → A → M L B) (acc : B) (l : list A) : M L B :=
  match l with
  | [] => mret acc
  | x :: l' => acc' ← f acc x; for_fold f acc' l'
  end.

(** [d[k]]: the value, or [KeyError(k)], whose [str] is [repr(k)]. *)
Definition dict_index {V} (d : gmap string V) (k : string) : result V :=
  match d !! k with
  | Some v => Ok v
  | None => Raise (MkExn OtherException (repr k))
  end.

(** ** The table of [rich] *)

Record column : Type := MkColumn {
  col_header : string;
  col_style : string
}.

Record table : Type := MkTable {
  tbl_show_header : bool;
  tbl_header_style : string;
  tbl_columns : list column;
  tbl_rows : list (list string)
}.

(** [table.add_column(header, style=style)] *)
Definition add_column (header style : string) (t : table) : table :=
  {| tbl_show_header := tbl_show_header t;
     tbl_header_style := tbl_header_style t;
     tbl_columns := tbl_columns t ++ [MkColumn header style];
     tbl_rows := tbl_rows t |}.

(** [table.add_row], applied to the cells.  The program passes one cell for each
    column, so the table neither pads the row nor grows a column. *)
Definition add_row (cells : list string) (t : table) : table :=
  {| tbl_show_header := tbl_show_header t;
     tbl_header_style := tbl_header_style t;
     tbl_columns := tbl_columns t;
     tbl_rows := tbl_rows t ++ [cells] |}.

(** ** What [main] touches besides the console and the network

    The lines standard input still holds, the tables the console has
    shown, and the files, each as the rows handed to the [csv] writer.
    Writing a file is taken to succeed. *)
Record world : Type := MkWorld {
  w_stdin : list string;
  w_tables : list table;
  w_files : gmap string (list (list string))
}.

(** [console.print(table)]: [rich] renders the cells as markup before it
    shows anything, and [table_error t] is the exception it raises for
    [t], if any. *)
Definition console_print_table (table_error : table → option exn) (t : table)
  : M world unit :=
  λ w tr,
    match table_error t with
    | Some e => (Raise e, w, tr)
    | None =>
        (Ok tt,
         {| w_stdin := w_stdin w;
            w_tables := w_tables w ++ [t];
            w_files := w_files w |},
         tr)
    end.

(** [open(filename, 'w')]: the file is created, or emptied. *)
Definition open_w (filename : string) : M world unit :=
  modify (λ w, {| w_stdin := w_stdin w;
                  w_tables := w_tables w;
                  w_files := <[filename := []]> (w_files w) |}).

(** [writer.writerow(row)] on the open file. *)
Definition write_row (filename : string) (row : list string) : M world unit :=
  modify (λ w, {| w_stdin := w_stdin w;
                  w_tables := w_tables w;
                  w_files := alter (λ rows, rows ++ [row]) filename (w_files w) |}).

(** ** [display_results] *)

(** [[result['URL']] + [str(result[header]) for header in HEADERS_TO_CHECK]] *)
Definition row_values {L} (result : gmap string string) : M L (list string) :=
  first ← call_pure (dict_index result "URL");
  others ← list_comp (λ header, call_pure (dict_index result header)) HEADERS_TO_CHECK;
  mret ([first] ++ others).

Definition display_results (table_error : table → option exn)
    (results : list (gmap string string)) : M world unit :=
  let table := MkTable true "bold magenta" [] [] in
  let table := add_column "URL" "cyan" table in
  let table :=
    foldl (λ table header, add_column (upper header) "green" table)
      table HEADERS_TO_CHECK in
  table ← for_fold
    (λ table result, values ← row_values result; mret (add_row values table))
    table results;
  console_print_table table_error table.

(** ** [save_to_csv] *)

(** [csv.DictWriter._dict_to_list] with the default [extrasaction='raise']
    and [restval='']: a key outside the field names is an error, a field
    without a key is empty.  The order in which the message lists the
    offending keys is not fixed by Python; here it is the order of the
    set. *)
Definition dict_to_list (fieldnames : list string) (rowdict : gmap string string)
  : result (list string) :=
  let wrong_fields := elements (dom rowdict ∖ list_to_set fieldnames) in
  if decide (wrong_fields = [])
  then Ok ((λ key, dict_get rowdict key "") <$> fieldnames)
  else Raise (MkExn ValueError
                ("dict contains fields not in fieldnames: "
                   +:+ str_join ", " (repr <$> wrong_fields))).

Definition save_to_csv (results : list (gmap string string)) (filename : string)
  : M world unit :=
  let fieldnames := ["URL"] ++ HEADERS_TO_CHECK in
  open_w filename;;
  write_row filename fieldnames;;                       (* writer.writeheader() *)
  for_each                                              (* writer.writerows(results) *)
    (λ rowdict,
       row ← call_pure (dict_to_list fieldnames rowdict);
       write_row filename row)
    results.

(** ** [main] *)

Definition HEADER_HAWK_ASCII : string :=
  "
[cyan]|\     /|(  ____ \(  ___  )(  __  \ (  ____ \(  ____ )|\     /|(  ___  )|\     /|| \    /\
| )   ( || (    \/| (   ) || (  \  )| (    \/| (    )|| )   ( || (   ) || )   ( ||  \  / /
| (___) || (__    | (___) || |   ) || (__    | (____)|| (___) || (___) || | _ | ||  (_/ / 
|  ___  ||  __)   |  ___  || |   | ||  __)   |     __)|  ___  ||  ___  || |( )| ||   _ (  
| (   ) || (      | (   ) || |   ) || (      | (\ (   | (   ) || (   ) || || || ||  ( \ \ 
| )   ( || (____/\| )   ( || (__/  )| (____/\| ) \ \__| )   ( || )   ( || () () ||  /  \ \
|/     \|(_______/|/     \|(______/ (_______/|/   \__/|/     \||/     \|(_______)|_/    \/[/cyan]
".

(** [args = parser.parse_args()] *)
Record args : Type := MkArgs {
  args_urls : list string;
  args_save : bool
}.

(** How [main] ends: it returns, or [sys.exit(code)] ends it; nothing in
    [main] catches the latter. *)
Inductive exit_status : Type :=
  | Returned
  | Exited (code : nat).

(** [EOFError], raised by [input()] at the end of the input. *)
Definition EOFError : exn := MkExn OtherException "EOF when reading a line".

(** The loop
    [while True: url = input().strip(); if not url: break; urls.append(url)]
    run on the lines that standard input holds: the URLs collected, or
    the exception, and the lines left unread. *)
Fixpoint read_urls (stdin : list string) (urls : list string)
  : result (list string) * list string :=
  match stdin with
  | [] => (Raise EOFError, [])
  | line :: rest =>
      let url := strip line in
      if decide (url = "") then (Ok urls, rest)
      else read_urls rest (urls ++ [url])
  end.

Definition input_urls : M world (list string) :=
  λ w tr,
    let '(r, rest) := read_urls (w_stdin w) [] in
    (r, {| w_stdin := rest; w_tables := w_tables w; w_files := w_files w |}, tr).

(** [f"[red]Error: Maximum {MAX_URLS} URLs allowed. You provided {len(urls)}.[/red]"] *)
Definition too_many_line (n : nat) : string :=
  "[red]Error: Maximum " +:+ pretty MAX_URLS +:+ " URLs allowed. You provided "
    +:+ pretty n +:+ ".[/red]".

(** [f"headerhawk_results_{timestamp}.csv"] *)
Definition csv_filename (timestamp : string) : string :=
  "headerhawk_results_" +:+ timestamp +:+ ".csv".

(** [f"[green]Results saved to {filename}[/green]"] *)
Definition saved_line (filename : string) : string :=
  "[green]Results saved to " +:+ filename +:+ "[/green]".

Section Main.

Variable validators_url : string → bool.
Variable markup_error : string → option exn.
Variable requests_get : list event → request → result response.

(** [rich]'s table renderer: the exception it raises for a table, if any. *)
Variable table_error : table → option exn.

(** [datetime.now().strftime("%Y%m%d_%H%M%S")] *)
Variable timestamp : string.

Definition main (args : args) : M world exit_status :=
  console_print_fixed HEADER_HAWK_ASCII;;
  console_print_fixed "[yellow]Security Header Analysis Tool[/yellow]";;
  console_print_fixed "[yellow]Version: 1.0[/yellow]";;
  console_print_fixed ("[yellow]User-Agent: " +:+ USER_AGENT +:+ "[/yellow]");;
  console_print_fixed "";;
  let urls := args_urls args in
  urls ←
    (if decide (urls = []) then
       console_print_fixed
         "[yellow]No URLs provided. Enter URLs (one per line, max 20).[/yellow]";;
       console_print_fixed "[yellow]Press Enter twice when done:[/yellow]";;
       input_urls
     else mret urls);
  if decide (urls = []) then
    console_print_fixed "[red]No URLs provided. Exiting.[/red]";;
    mret (Exited 1)
  else if decide (MAX_URLS < length urls) then
    console_print_fixed (too_many_line (length urls));;
    mret (Exited 1)
  else
    console_print_fixed "[cyan]Analyzing security headers...[/cyan]";;
    console_print_fixed
      ("[cyan]Rate limiting: " +:+ pretty RATE_LIMIT_DELAY
         +:+ " seconds between requests[/cyan]");;
    console_print_fixed "";;
    results ← call (process_urls validators_url markup_error requests_get urls);
    display_results table_error results;;
    (if args_save args then
       let filename := csv_filename timestamp in
       save_to_csv results filename;;
       console_print markup_error (saved_line filename)
     else mret tt);;
    mret Returned.

End Main.

(** ** Notions used to state the properties of the rest *)

Definition is_get (ev : event) : bool :=
  match ev with
  | Get _ => true
  | _ => false
  end.

Definition count_gets (tr : list event) : nat :=
  length (List.filter is_get tr).

(** The field names of the CSV file, which are also the names behind the
    columns of the table, in order. *)
Definition fieldnames : list string := "URL" :: HEADERS_TO_CHECK.

(** A record has every field a row needs. *)
Definition has_fields (r : gmap string string) : Prop :=
  Forall (λ name, is_Some (r !! name)) fieldnames.

(** The fields of a record in the order of [fieldnames]. *)
Definition record_row (r : gmap string string) : list string :=
  (λ name, default "" (r !! name)) <$> fieldnames.

(** What [main] prints before it looks at its arguments. *)
Definition banner : list event :=
  [ Print HEADER_HAWK_ASCII;
    Print "[yellow]Security Header Analysis Tool[/yellow]";
    Print "[yellow]Version: 1.0[/yellow]";
    Print ("[yellow]User-Agent: " +:+ USER_AGENT +:+ "[/yellow]");
    Print "" ].

(** What [main] prints before it reads URLs from standard input. *)
Definition prompts : list event :=
  [ Print "[yellow]No URLs provided. Enter URLs (one per line, max 20).[/yellow]";
    Print "[yellow]Press Enter twice when done:[/yellow]" ].

(** What [main] prints before it starts the batch. *)
Definition announcement : list event :=
  [ Print "[cyan]Analyzing security headers...[/cyan]";
    Print ("[cyan]Rate limiting: " +:+ pretty RATE_LIMIT_DELAY
             +:+ " seconds between requests[/cyan]");
    Print "" ].

(** The table [display_results] builds for the records [rs]. *)
Definition results_table (rs : list (gmap string string)) : table :=
  {| tbl_show_header := true;
     tbl_header_style := "bold magenta";
     tbl_columns :=
       [ MkColumn "URL" "cyan";
         MkColumn "CONTENT-SECURITY-POLICY" "green";
         MkColumn "X-FRAME-OPTIONS" "green";
         MkColumn "STRICT-TRANSPORT-SECURITY" "green";
         MkColumn "REFERRER-POLICY" "green" ];
     tbl_rows := record_row <$> rs |}.

(** A stand-in for the table renderer, built on [sample_markup]: the
    fault of the first cell that has one, row by row. *)
Definition sample_table_error (t : table) : option exn :=
  head (omap sample_markup (concat (tbl_rows t))).

(** A string with no white space in front. *)
Definition no_leading_space (s : string) : Prop :=
  match s with
  | EmptyString => True
  | String c _ => is_space c = false
  end.

(** * Properties *)

(** ** Strings *)

Lemma string_length_app (s1 s2 : string) :
  String.length (s1 +:+ s2) = String.length s1 + String.length s2.
Proof. induction s1 as [|c s1 IH]; simpl; [done | by rewrite IH]. Qed.

Lemma slice_to_length (n : nat) (s : string) :
  String.length (slice_to n s) = n `min` String.length s.
Proof.
  unfold slice_to. revert s.
  induction n as [|n IH]; intros [|c s]; simpl; try done.
  by rewrite IH.
Qed.

Lemma slice_to_app (n : nat) (s1 s2 : string) :
  String.length s1 = n → slice_to n (s1 +:+ s2) = s1.
Proof.
  unfold slice_to. revert s1.
  induction n as [|n IH]; intros [|c s1] Hlen; simpl in *; try done.
  - by destruct s2.
  - f_equal. apply IH. lia.
Qed.

Lemma slice_to_all (n : nat) (s : string) :
  String.length s ≤ n → slice_to n s = s.
Proof.
  unfold slice_to. revert s.
  induction n as [|n IH]; intros [|c s] Hlen; simpl in *; try done; try lia.
  f_equal. apply IH. lia.
Qed.

(** ** [truncate_value] *)

Lemma truncate_value_long (value : string) :
  MAX_HEADER_LENGTH < String.length value →
  truncate_value value = slice_to MAX_HEADER_LENGTH value +:+ "...".
Proof. intros Hlen. unfold truncate_value. by rewrite decide_True. Qed.

Lemma truncate_value_short (value : string) :
  String.length value ≤ MAX_HEADER_LENGTH → truncate_value value = value.
Proof. intros Hlen. unfold truncate_value. rewrite decide_False; [done | lia]. Qed.

Lemma truncate_value_length (value : string) :
  String.length (truncate_value value) ≤ MAX_HEADER_LENGTH + 3.
Proof.
  destruct (decide (MAX_HEADER_LENGTH < String.length value)) as [Hlong|Hshort].
  - rewrite truncate_value_long, string_length_app, slice_to_length by done.
    simpl String.length. lia.
  - rewrite truncate_value_short; lia.
Qed.

Lemma truncate_value_nonempty (value : string) :
  value ≠ "" → truncate_value value ≠ "".
Proof.
  intros Hne.
  destruct (decide (MAX_HEADER_LENGTH < String.length value)) as [Hlong|Hshort].
  - rewrite truncate_value_long by done. intros Heq.
    apply (f_equal String.length) in Heq.
    rewrite string_length_app in Heq. simpl in Heq. lia.
  - rewrite truncate_value_short; [done | lia].
Qed.

(** C6. A value longer than 80 characters becomes its first 80 characters
    followed by three dots, a value of at most 80 characters is kept as it
    is, and truncating a second time changes nothing. *)
Theorem C6_truncate_value_law (value : string) :
  (80 < String.length value →
     truncate_value value = String.substring 0 80 value +:+ "..." ∧
     String.length (String.substring 0 80 value) = 80) ∧
  (String.length value ≤ 80 → truncate_value value = value) ∧
  truncate_value (truncate_value value) = truncate_value value.
Proof.
  split; [|split].
  - intros Hlong. split.
    + by apply truncate_value_long.
    + pose proof (slice_to_length 80 value) as Hl. unfold slice_to in Hl. lia.
  - apply truncate_value_short.
  - destruct (decide (MAX_HEADER_LENGTH < String.length value)) as [Hlong|Hshort].
    + rewrite (truncate_value_long value) by done.
      assert (String.length (slice_to MAX_HEADER_LENGTH value) = MAX_HEADER_LENGTH) as Hpre.
      { rewrite slice_to_length. lia. }
      rewrite truncate_value_long.
      * by rewrite slice_to_app.
      * rewrite string_length_app, Hpre. unfold MAX_HEADER_LENGTH. simpl. lia.
    + rewrite (truncate_value_short value) by lia.
      apply truncate_value_short. lia.
Qed.

Lemma C6_truncate_value_law_witness :
  truncate_value
    "max-age=63072000; includeSubDomains; preload; report-uri=https://example.com/hsts-report"
  = "max-age=63072000; includeSubDomains; preload; report-uri=https://example.com/hst..." ∧
  truncate_value "max-age=63072000" = "max-age=63072000".
Proof.
  split.
  - destruct (C6_truncate_value_law
      "max-age=63072000; includeSubDomains; preload; report-uri=https://example.com/hsts-report")
      as [Hlong _].
    destruct Hlong as [Heq _]; [apply Nat.ltb_lt; reflexivity | exact Heq].
  - destruct (C6_truncate_value_law "max-age=63072000") as (_ & Hshort & _).
    apply Hshort. apply Nat.leb_le. reflexivity.
Defined.

(** ** [validate_and_format_url] *)

Section Normalizer.

Context (validators_url : string → bool).

Local Abbreviation validate := (validate_and_format_url validators_url).

Lemma validate_with_scheme (raw : string) :
  startswith raw ["http://"; "https://"] = true →
  validate raw = if validators_url raw then Ok raw else Raise (invalid_url raw).
Proof.
  intros Hs. unfold validate_and_format_url. rewrite Hs. simpl.
  by destruct (validators_url raw).
Qed.

Lemma validate_without_scheme (raw : string) :
  startswith raw ["http://"; "https://"] = false →
  validate raw =
    if validators_url ("https://" +:+ raw)
    then Ok ("https://" +:+ raw)
    else Raise (invalid_url ("https://" +:+ raw)).
Proof.
  intros Hs. unfold validate_and_format_url. rewrite Hs.
  cbn [negb]. by destruct (validators_url _).
Qed.

Lemma startswith_schemes (raw : string) :
  startswith raw ["http://"; "https://"] = true ↔
  String.prefix "http://" raw = true ∨ String.prefix "https://" raw = true.
Proof.
  unfold startswith. cbn [existsb]. by rewrite orb_false_r, orb_true_iff.
Qed.

(** C4. An input that begins with http:// or https:// is validated as it
    is; any other input is validated with https:// in front.  The
    function returns the validated string when the validator accepts
    it and raises the error that carries it when the validator does
    not. *)
Theorem C4_validate_and_format_url (raw : string) :
  (String.prefix "http://" raw = true ∨ String.prefix "https://" raw = true →
     validate raw = if validators_url raw then Ok raw else Raise (invalid_url raw)) ∧
  (¬ (String.prefix "http://" raw = true ∨ String.prefix "https://" raw = true) →
     validate raw =
       if validators_url ("https://" +:+ raw)
       then Ok ("https://" +:+ raw)
       else Raise (invalid_url ("https://" +:+ raw))) ∧
  (∀ attempted, exn_str (invalid_url attempted) = "Invalid URL format: " +:+ attempted) ∧
  (validators_url "https://not a url" = false →
     validate "not a url"
       = Raise (MkExn ValueError "Invalid URL format: https://not a url")).
Proof.
  split; [|split; [|split]].
  - intros Hs. apply validate_with_scheme. by apply startswith_schemes.
  - intros Hs. apply validate_without_scheme.
    destruct (startswith raw _) eqn:E; [|done].
    apply startswith_schemes in E. done.
  - done.
  - intros Hv. rewrite validate_without_scheme by done.
    change ("https://" +:+ "not a url") with "https://not a url". by rewrite Hv.
Qed.

End Normalizer.

Lemma C4_validate_and_format_url_witness :
  validate_and_format_url sample_validator "http://example.com" = Ok "http://example.com" ∧
  validate_and_format_url sample_validator "example.com" = Ok "https://example.com" ∧
  validate_and_format_url sample_validator "not a url"
    = Raise (MkExn ValueError "Invalid URL format: https://not a url").
Proof.
  split; [|split].
  - destruct (C4_validate_and_format_url sample_validator "http://example.com")
      as (H & _).
    apply H. left. reflexivity.
  - destruct (C4_validate_and_format_url sample_validator "example.com")
      as (_ & H & _).
    apply H. intros [H1|H1]; discriminate H1.
  - destruct (C4_validate_and_format_url sample_validator "not a url")
      as (_ & _ & _ & H).
    apply H. reflexivity.
Defined.

(** ** Dictionaries *)

Lemma foldl_insert_notin {V} (items : list (string * V)) (d : gmap string V) (k : string) :
  k ∉ items.*1 →
  foldl (λ d kv, <[kv.1 := kv.2]> d) d items !! k = d !! k.
Proof.
  revert d. induction items as [|[k' v'] items IH]; intros d Hk; simpl in *; [done|].
  apply not_elem_of_cons in Hk as [Hne Hk].
  rewrite IH by done. by rewrite lookup_insert_ne.
Qed.

Lemma foldl_insert_in {V} (items : list (string * V)) (d : gmap string V) (k : string) (v : V) :
  NoDup items.*1 → (k, v) ∈ items →
  foldl (λ d kv, <[kv.1 := kv.2]> d) d items !! k = Some v.
Proof.
  revert d. induction items as [|[k' v'] items IH]; intros d Hnd Hin; simpl in *.
  - by apply elem_of_nil in Hin.
  - apply NoDup_cons in Hnd as [Hfresh Hnd].
    apply elem_of_cons in Hin as [Heq|Hin].
    + injection Heq as -> ->.
      rewrite foldl_insert_notin by done. apply lookup_insert_eq.
    + by apply IH.
Qed.

Lemma dict_of_items_in {V} (items : list (string * V)) (k : string) (v : V) :
  NoDup items.*1 → (k, v) ∈ items → dict_of_items items !! k = Some v.
Proof. apply foldl_insert_in. Qed.

Lemma dict_of_items_notin {V} (items : list (string * V)) (k : string) :
  k ∉ items.*1 → dict_of_items items !! k = None.
Proof. intros Hk. unfold dict_of_items. by rewrite foldl_insert_notin. Qed.

Lemma HEADERS_TO_CHECK_NoDup : NoDup HEADERS_TO_CHECK.
Proof. compute_done. Qed.

Lemma HEADERS_TO_CHECK_not_URL : "URL" ∉ HEADERS_TO_CHECK.
Proof. compute_done. Qed.

Lemma error_headers_lookup (e : exn) (header : string) :
  header ∈ HEADERS_TO_CHECK →
  error_headers e !! header = Some (PStr ("Error: " +:+ exn_str e)).
Proof.
  intros Hin. unfold error_headers. apply dict_of_items_in.
  - exact HEADERS_TO_CHECK_NoDup.
  - apply (list_elem_of_fmap_2 (λ h, (h, PStr ("Error: " +:+ exn_str e)))) in Hin.
    exact Hin.
Qed.

Lemma lower_headers_keys (resp : response) :
  ((λ kv : string * string, (lower kv.1, PStr kv.2)) <$> resp_headers resp).*1
  = lower <$> (resp_headers resp).*1.
Proof.
  induction (resp_headers resp) as [|[k v] items IH]; [done|].
  rewrite !fmap_cons. by f_equal.
Qed.

Lemma lower_headers_present (resp : response) (k v : string) :
  NoDup (lower <$> (resp_headers resp).*1) →
  (k, v) ∈ resp_headers resp →
  lower_headers resp !! lower k = Some (PStr v).
Proof.
  intros Hnd Hin. unfold lower_headers. apply dict_of_items_in.
  - by rewrite lower_headers_keys.
  - apply (list_elem_of_fmap_2 (λ kv : string * string, (lower kv.1, PStr kv.2))) in Hin.
    exact Hin.
Qed.

Lemma lower_headers_absent (resp : response) (header : string) :
  (∀ k v, (k, v) ∈ resp_headers resp → lower k ≠ header) →
  lower_headers resp !! header = None.
Proof.
  intros Habs. unfold lower_headers. apply dict_of_items_notin.
  rewrite lower_headers_keys. intros Hin.
  apply list_elem_of_fmap in Hin as (k & -> & Hk).
  apply list_elem_of_fmap in Hk as ([k' v] & -> & Hkv).
  by apply (Habs k' v).
Qed.

(** ** The record of one URL *)

Lemma build_result_fold (headers : gmap string pyval) (hs : list string)
    (init : gmap string string) (k : string) :
  foldl
    (λ result header,
       match dict_get headers header (PStr "Missing") with
       | PStr s => <[header := truncate_value s]> result
       | PNotStr => <[header := "Missing"]> result
       end) init hs !! k
  = if decide (k ∈ hs) then Some (recorded_value headers k) else init !! k.
Proof.
  revert init. induction hs as [|h hs IH]; intros init; cbn [foldl].
  - case_decide as Hin; [by apply elem_of_nil in Hin | done].
  - rewrite IH. rewrite (decide_ext (k ∈ h :: hs) (k = h ∨ k ∈ hs)) by apply elem_of_cons.
    destruct (decide (k ∈ hs)) as [Hin|Hnin].
    + by rewrite decide_True by (by right).
    + destruct (decide (k = h)) as [->|Hne].
      * rewrite decide_True by (by left).
        unfold recorded_value.
        destruct (dict_get headers h (PStr "Missing")); by rewrite lookup_insert_eq.
      * rewrite decide_False by (by intros [?|?]).
        destruct (dict_get headers h (PStr "Missing")); by rewrite lookup_insert_ne.
Qed.

Lemma build_result_header (url : string) (headers : gmap string pyval) (header : string) :
  header ∈ HEADERS_TO_CHECK →
  build_result url headers !! header = Some (recorded_value headers header).
Proof.
  intros Hin. unfold build_result. rewrite build_result_fold. by rewrite decide_True.
Qed.

Lemma build_result_URL (url : string) (headers : gmap string pyval) :
  build_result url headers !! "URL" = Some url.
Proof.
  unfold build_result. rewrite build_result_fold.
  rewrite decide_False by apply HEADERS_TO_CHECK_not_URL.
  apply lookup_singleton_eq.
Qed.

Lemma build_result_other (url : string) (headers : gmap string pyval) (k : string) :
  k ≠ "URL" → k ∉ HEADERS_TO_CHECK → build_result url headers !! k = None.
Proof.
  intros Hne Hnin. unfold build_result. rewrite build_result_fold.
  rewrite decide_False by done. by apply lookup_singleton_ne.
Qed.

Lemma tracked_field_names (k : string) :
  k ∈ ({[ "URL"; "content-security-policy"; "x-frame-options";
          "strict-transport-security"; "referrer-policy" ]} : gset string)
  ↔ k = "URL" ∨ k ∈ HEADERS_TO_CHECK.
Proof.
  unfold HEADERS_TO_CHECK.
  rewrite !elem_of_union, !elem_of_singleton, !elem_of_cons, elem_of_nil. tauto.
Qed.

Lemma build_result_fields (url : string) (headers : gmap string pyval) :
  tracked_fields (build_result url headers).
Proof.
  unfold tracked_fields. apply set_eq. intros k.
  rewrite elem_of_dom, tracked_field_names.
  destruct (decide (k = "URL")) as [->|Hne].
  - rewrite build_result_URL. split; [by left | by eauto].
  - destruct (decide (k ∈ HEADERS_TO_CHECK)) as [Hin|Hnin].
    + rewrite build_result_header by done. split; [by right | by eauto].
    + rewrite build_result_other by done. split.
      * by intros [? ?].
      * by intros [?|?].
Qed.

Lemma recorded_value_length (headers : gmap string pyval) (header : string) :
  String.length (recorded_value headers header) ≤ 83.
Proof.
  unfold recorded_value.
  destruct (dict_get headers header (PStr "Missing")) as [s|].
  - apply (truncate_value_length s).
  - simpl. lia.
Qed.

Lemma recorded_value_present (headers : gmap string pyval) (header s : string) :
  headers !! header = Some (PStr s) → recorded_value headers header = truncate_value s.
Proof. intros Hl. unfold recorded_value, dict_get. by rewrite Hl. Qed.

Lemma recorded_value_absent (headers : gmap string pyval) (header : string) :
  headers !! header = None → recorded_value headers header = "Missing".
Proof. intros Hl. unfold recorded_value, dict_get. by rewrite Hl. Qed.

(** ** The keys of the header dictionary *)

Lemma lower_ascii_idem (c : ascii) : lower_ascii (lower_ascii c) = lower_ascii c.
Proof. destruct c as [[] [] [] [] [] [] [] []]; reflexivity. Qed.

Lemma lower_idem (s : string) : lower (lower s) = lower s.
Proof.
  induction s as [|c s IH]; [done|].
  cbn [lower]. by rewrite lower_ascii_idem, IH.
Qed.

Lemma foldl_insert_Some_inv {V} (items : list (string * V)) (d : gmap string V)
    (k : string) (v : V) :
  foldl (λ d kv, <[kv.1 := kv.2]> d) d items !! k = Some v →
  (k, v) ∈ items ∨ d !! k = Some v.
Proof.
  revert d. induction items as [|[k' v'] items IH]; intros d Hl; cbn [foldl] in Hl.
  - by right.
  - apply IH in Hl as [Hin|Hl].
    + left. by apply elem_of_cons; right.
    + cbn in Hl. destruct (decide (k' = k)) as [->|Hne].
      * rewrite lookup_insert_eq in Hl. injection Hl as ->.
        left. apply list_elem_of_here.
      * rewrite lookup_insert_ne in Hl by done. by right.
Qed.

Lemma foldl_insert_is_Some {V} (items : list (string * V)) (d : gmap string V)
    (k : string) :
  k ∈ items.*1 → is_Some (foldl (λ d kv, <[kv.1 := kv.2]> d) d items !! k).
Proof.
  revert d. induction items as [|[k' v'] items IH]; intros d Hin; cbn in Hin.
  - by apply elem_of_nil in Hin.
  - cbn [foldl]. destruct (decide (k ∈ items.*1)) as [Hrest|Hrest].
    + by apply IH.
    + apply elem_of_cons in Hin as [->|Hin]; [|done].
      rewrite foldl_insert_notin by done. cbn. rewrite lookup_insert_eq. by eexists.
Qed.



(** ** [get_headers] *)

Section Fetcher.

Context (markup_error : string → option exn).
Context (requests_get : list event → request → result response).

Lemma get_headers_unfold (url : string) (tr : list event) :
  get_headers markup_error requests_get url tt tr =
    match requests_get tr (get_request url true) with
    | Ok resp =>
        (Ok (lower_headers resp), tt, tr ++ [Get (get_request url true)])
    | Raise e =>
        if is_SSLError e then
          match markup_error (ssl_warning url) with
          | Some e' => (Raise e', tt, tr ++ [Get (get_request url true)])
          | None =>
              match
                requests_get
                  (tr ++ [Get (get_request url true); Print (ssl_warning url)])
                  (get_request url false)
              with
              | Ok resp =>
                  (Ok (lower_headers resp), tt,
                   tr ++ [Get (get_request url true); Print (ssl_warning url);
                          Get (get_request url false)])
              | Raise e' =>
                  (Ok (error_headers e'), tt,
                   tr ++ [Get (get_request url true); Print (ssl_warning url);
                          Get (get_request url false)])
              end
          end
        else (Ok (error_headers e), tt, tr ++ [Get (get_request url true)])
    end.
Proof.
  unfold get_headers, try_except, mbind, M_bind, m_bind, mret, M_ret, m_ret,
    do_requests_get, console_print.
  destruct (requests_get tr (get_request url true)) as [resp|e]; [done|].
  destruct (is_SSLError e); [|done].
  destruct (markup_error (ssl_warning url)) as [e'|]; [done|].
  rewrite <- (app_assoc tr [_] [_]). cbn [app].
  destruct (requests_get _ (get_request url false)) as [resp|e'];
    by rewrite <- (app_assoc tr [_; _] [_]).
Qed.

(** Whatever comes of it, a fetch leaves one request, or the request, the
    warning and the second request; and a dictionary it returns is that of
    a response or that of an error. *)
Lemma get_headers_cases (url : string) (tr : list event) :
  ∃ res new,
    get_headers markup_error requests_get url tt tr = (res, tt, tr ++ new) ∧
    fetch_trace url new ∧
    (∀ headers, res = Ok headers →
       (∃ resp, fetch_succeeds requests_get url tr resp ∧ headers = lower_headers resp) ∨
       (∃ e, fetch_fails requests_get url tr e ∧ headers = error_headers e)) ∧
    (∀ e', res = Raise e' →
       new = [Get (get_request url true)] ∧
       markup_error (ssl_warning url) = Some e' ∧
       ∃ e, requests_get tr (get_request url true) = Raise e ∧ is_SSLError e = true).
Proof.
  rewrite get_headers_unfold. unfold fetch_succeeds, fetch_fails.
  destruct (requests_get tr (get_request url true)) as [resp|e] eqn:E1.
  - eexists _, _. split; [done|]. split; [by left|]. split; [|done].
    intros headers [= <-]. left. eauto.
  - destruct (is_SSLError e) eqn:Essl.
    + destruct (markup_error (ssl_warning url)) as [e'|] eqn:Ewarn.
      * eexists _, _. split; [done|]. split; [by left|]. split; [done|].
        intros e0 [= <-]. eauto.
      * destruct (requests_get _ (get_request url false)) as [resp|e'] eqn:E2.
        -- eexists _, _. split; [done|]. split; [by right|]. split; [|done].
           intros headers [= <-]. left. exists resp. split; [|done]. right. eauto.
        -- eexists _, _. split; [done|]. split; [by right|]. split; [|done].
           intros headers [= <-]. right. exists e'. split; [|done]. right. eauto.
    + eexists _, _. split; [done|]. split; [by left|]. split; [|done].
      intros headers [= <-]. right. exists e. split; [|done]. left. eauto.
Qed.

(** The outcome of a fetch is determined by the answers of the network:
    it cannot both obtain a response and fail. *)
Lemma fetch_fails_headers (url : string) (tr : list event) (e : exn)
    (headers : gmap string pyval) (tr' : list event) :
  fetch_fails requests_get url tr e →
  get_headers markup_error requests_get url tt tr = (Ok headers, tt, tr') →
  headers = error_headers e.
Proof.
  rewrite get_headers_unfold. intros [[H1 Hs]|(e1 & H1 & Hs & H2)]; rewrite H1, Hs.
  - congruence.
  - destruct (markup_error (ssl_warning url)); [done|]. rewrite H2. congruence.
Qed.

Lemma fetch_succeeds_headers (url : string) (tr : list event) (resp : response)
    (headers : gmap string pyval) (tr' : list event) :
  fetch_succeeds requests_get url tr resp →
  get_headers markup_error requests_get url tt tr = (Ok headers, tt, tr') →
  headers = lower_headers resp.
Proof.
  rewrite get_headers_unfold. intros [H1|(e1 & H1 & Hs & H2)]; rewrite H1.
  - congruence.
  - rewrite Hs. destruct (markup_error (ssl_warning url)); [done|].
    rewrite H2. congruence.
Qed.

(** C1.  [get_headers] does raise: when the verified request fails on the
    certificate and [rich] rejects the warning line, which holds the URL,
    the exception of [rich] leaves [get_headers], from the handler and
    before the second [try].  The verified request is then the only
    thing done. *)
Theorem C1_get_headers_raises_on_warning_markup (url : string) (tr : list event)
    (e e' : exn) :
  requests_get tr (get_request url true) = Raise e →
  is_SSLError e = true →
  markup_error (ssl_warning url) = Some e' →
  get_headers markup_error requests_get url tt tr
    = (Raise e', tt, tr ++ [Get (get_request url true)]).
Proof.
  intros Hfirst Hssl Hwarn. rewrite get_headers_unfold.
  by rewrite Hfirst, Hssl, Hwarn.
Qed.


End Fetcher.

Lemma C1_get_headers_raises_on_warning_markup_witness :
  get_headers sample_markup net_selfsigned "https://example.com/?q=[/x]" tt []
  = (Raise (MkExn MarkupError
              "closing tag '[/x]' at position 68 doesn't match any open tag"),
     tt, [] ++ [Get (get_request "https://example.com/?q=[/x]" true)]).
Proof.
  apply (C1_get_headers_raises_on_warning_markup sample_markup net_selfsigned
           "https://example.com/?q=[/x]" []
           (MkExn SSLError "certificate verify failed"));
    reflexivity.
Defined.


(** ** The batch loop *)

Lemma count_sleeps_app (tr1 tr2 : list event) :
  count_sleeps (tr1 ++ tr2) = count_sleeps tr1 + count_sleeps tr2.
Proof. unfold count_sleeps. by rewrite List.filter_app, length_app. Qed.

Lemma count_sleeps_fetch (url : string) (evs : list event) :
  fetch_trace url evs → count_sleeps evs = 0.
Proof. by intros [->| ->]. Qed.

Lemma count_sleeps_pause (total_urls index : nat) :
  count_sleeps (pause total_urls index) = if decide (index < total_urls) then 1 else 0.
Proof. unfold pause. by case_decide. Qed.

Section Batch.

Context (validators_url : string → bool).
Context (markup_error : string → option exn).
Context (requests_get : list event → request → result response).

Local Abbreviation validate := (validate_and_format_url validators_url).
Local Abbreviation fetch := (get_headers markup_error requests_get).
Local Abbreviation one := (process_one validators_url markup_error requests_get).
Local Abbreviation loop := (for_enumerate validators_url markup_error requests_get).
Local Abbreviation batch := (process_urls validators_url markup_error requests_get).
Local Abbreviation step := (iteration validators_url markup_error requests_get).
Local Abbreviation run := (batch_run validators_url markup_error requests_get).

(** The body of the loop does what [iteration] says. *)
Lemma process_one_iteration (total_urls index : nat) (f : frame) (tr : list event) :
  ∃ u,
    one total_urls index f tr =
      match step total_urls index (url f) tr with
      | (Recorded r, tr') => (Ok tt, {| url := u; results := results f ++ [r] |}, tr')
      | (Skipped, tr') => (Ok tt, {| url := u; results := results f |}, tr')
      | (Aborted e, tr') => (Raise e, {| url := u; results := results f |}, tr')
      end.
Proof.
  unfold process_one, iteration, handle_error, try_except, mbind, M_bind, m_bind,
    mret, M_ret, m_ret, gets, modify, call, call_pure, console_print,
    console_print_fixed, time_sleep, pause, set_url, results_append.
  destruct f as [raw rs]. cbn [url results].
  destruct (validate raw) as [n|e]; cbn [url results].
  - destruct (markup_error (progress_line n index total_urls)) as [e1|];
      cbn [url results].
    + destruct (markup_error (error_line n e1)); by eexists.
    + destruct (fetch n tt (tr ++ [Print (progress_line n index total_urls)]))
        as [[[headers|e1] []] tr1]; cbn [url results].
      * case_decide.
        -- eexists. by rewrite <- app_assoc.
        -- eexists. by rewrite app_nil_r.
      * destruct (markup_error (error_line n e1)); by eexists.
  - destruct (markup_error (error_line raw e)); by eexists.
Qed.

(** The loop does what [batch_run] says. *)
Lemma for_enumerate_run (total_urls : nat) (urls : list string) :
  ∀ index f tr, ∃ u exc rs tr',
    run total_urls index urls tr exc rs tr' ∧
    loop total_urls index urls f tr
      = (match exc with None => Ok tt | Some e => Raise e end,
         {| url := u; results := results f ++ rs |}, tr').
Proof.
  induction urls as [|raw rest IH]; intros index f tr.
  - exists (url f), None, [], tr. split; [constructor|].
    cbn. rewrite app_nil_r. by destruct f.
  - cbn [for_enumerate]. unfold mbind, M_bind, m_bind, modify.
    destruct (process_one_iteration total_urls index (set_url raw f) tr) as [u ->].
    cbn [set_url url results].
    destruct (step total_urls index raw tr) as [[r| |e] tr1] eqn:Hstep.
    + destruct (IH (S index) {| url := u; results := results f ++ [r] |} tr1)
        as (u' & exc & rs & tr' & Hrun & ->).
      exists u', exc, (r :: rs), tr'. split; [by eapply run_record|].
      cbn [results]. by rewrite <- app_assoc.
    + destruct (IH (S index) {| url := u; results := results f |} tr1)
        as (u' & exc & rs & tr' & Hrun & ->).
      exists u', exc, rs, tr'. split; [by eapply run_skip | done].
    + exists u, (Some e), [], tr1. split; [by eapply run_abort|].
      by rewrite app_nil_r.
Qed.

Lemma process_urls_run (urls : list string) (tr : list event) :
  ∃ exc rs tr',
    run (length urls) 1 urls tr exc rs tr' ∧
    batch urls tt tr
      = (match exc with None => Ok rs | Some e => Raise e end, tt, tr').
Proof.
  destruct (for_enumerate_run (length urls) urls 1 {| url := ""; results := [] |} tr)
    as (u & exc & rs & tr' & Hrun & Hloop).
  exists exc, rs, tr'. split; [done|].
  unfold process_urls. rewrite Hloop. by destruct exc.
Qed.

(** *** One input *)

Lemma handle_error_segment (u : string) (e : exn) (tr : list event) (o : outcome)
    (tr1 : list event) :
  handle_error markup_error u e tr = (o, tr1) →
  (o = Skipped ∧ tr1 = tr ++ [Print (error_line u e)] ∧
   markup_error (error_line u e) = None) ∨
  (∃ e', o = Aborted e' ∧ tr1 = tr ∧ markup_error (error_line u e) = Some e').
Proof.
  unfold handle_error. destruct (markup_error (error_line u e)) as [e'|].
  - intros [= <- <-]. right. by exists e'.
  - intros [= <- <-]. by left.
Qed.

Lemma iteration_recorded (total_urls index : nat) (raw : string) (tr : list event)
    (r : gmap string string) (tr1 : list event) :
  step total_urls index raw tr = (Recorded r, tr1) →
  ∃ n headers new,
    validate raw = Ok n ∧
    markup_error (progress_line n index total_urls) = None ∧
    fetch n tt (tr ++ [Print (progress_line n index total_urls)])
      = (Ok headers, tt, (tr ++ [Print (progress_line n index total_urls)]) ++ new) ∧
    fetch_trace n new ∧
    r = build_result n headers ∧
    tr1 = tr ++ Print (progress_line n index total_urls) :: new ++ pause total_urls index.
Proof.
  unfold iteration. destruct (validate raw) as [n|e].
  - destruct (markup_error (progress_line n index total_urls)) as [e1|] eqn:Hp.
    + intros Hh. apply handle_error_segment in Hh as [[? _]|(? & ? & _)]; done.
    + destruct (get_headers_cases markup_error requests_get n
                  (tr ++ [Print (progress_line n index total_urls)]))
        as (res & new & Hf & Hnew & _).
      rewrite Hf. destruct res as [headers|e1].
      * intros [= <- <-]. exists n, headers, new.
        repeat (split; [done|]). by rewrite <- !app_assoc.
      * intros Hh. apply handle_error_segment in Hh as [[? _]|(? & ? & _)]; done.
  - intros Hh. apply handle_error_segment in Hh as [[? _]|(? & ? & _)]; done.
Qed.

Lemma iteration_segment (total_urls index : nat) (raw : string) (tr : list event)
    (o : outcome) (tr1 : list event) :
  step total_urls index raw tr = (o, tr1) →
  ∃ seg, tr1 = tr ++ seg ∧
    segment_of validators_url markup_error total_urls index raw o seg.
Proof.
  unfold iteration, segment_of. destruct (validate raw) as [n|e].
  - destruct (markup_error (progress_line n index total_urls)) as [e1|] eqn:Hp.
    + intros Hh. apply handle_error_segment in Hh as [(-> & -> & _)|(e' & -> & -> & _)].
      * eexists. split; [done|]. by left.
      * exists []. split; [by rewrite app_nil_r|]. right. by exists e'.
    + destruct (get_headers_cases markup_error requests_get n
                  (tr ++ [Print (progress_line n index total_urls)]))
        as (res & new & Hf & Hnew & _ & Hraise).
      rewrite Hf. destruct res as [headers|e1].
      * intros [= <- <-]. eexists. split; [by rewrite <- !app_assoc|].
        left. by exists headers, new.
      * destruct (Hraise e1 eq_refl) as (-> & _).
        intros Hh. apply handle_error_segment in Hh as [(-> & -> & _)|(e' & -> & -> & _)].
        -- eexists. split; [by rewrite <- !app_assoc|]. right. left. by exists e1.
        -- eexists. split; [by rewrite <- !app_assoc|]. right. right. by exists e'.
  - intros Hh. apply handle_error_segment in Hh as [(-> & -> & _)|(e' & -> & -> & _)].
    + eexists. split; [done|]. by left.
    + exists []. split; [by rewrite app_nil_r|]. right. by exists e'.
Qed.

(** *** What a run records *)

(** Every record is built from the headers some fetch returned. *)
Lemma batch_run_records total_urls index urls tr exc rs tr' :
  run total_urls index urls tr exc rs tr' →
  Forall
    (λ r, ∃ n tr0 headers tr1,
       fetch n tt tr0 = (Ok headers, tt, tr1) ∧ r = build_result n headers)
    rs.
Proof.
  induction 1 as [| index raw rest tr r tr1 exc rs tr' Hstep _ IH | |];
    [constructor | | done | constructor].
  constructor; [|done].
  apply iteration_recorded in Hstep as (n & headers & new & _ & _ & Hf & _ & -> & _).
  by eauto 6.
Qed.

(** The loop runs to its end when [rich] accepts every error line. *)
(** An iteration does not leave the loop when the console accepts the
    error line it has to print. *)
Lemma iteration_not_aborted (total_urls index : nat) (raw : string) (tr : list event)
    (e : exn) (tr1 : list event) :
  error_line_accepted validators_url markup_error total_urls index raw →
  step total_urls index raw tr = (Aborted e, tr1) → False.
Proof.
  unfold error_line_accepted, error_after, iteration.
  destruct (validate raw) as [n|e0].
  - intros [Hprogress Hwarn].
    destruct (markup_error (progress_line n index total_urls)) as [e1|].
    + intros Hh. apply handle_error_segment in Hh as [[? _]|(e' & _ & _ & He)]; [done|].
      by rewrite Hprogress in He.
    + destruct (get_headers_cases markup_error requests_get n
                  (tr ++ [Print (progress_line n index total_urls)]))
        as (res & new & -> & _ & _ & Hraise).
      destruct res as [headers|e1]; [done|].
      destruct (Hraise e1 eq_refl) as (_ & He1 & _). rewrite He1 in Hwarn.
      intros Hh. apply handle_error_segment in Hh as [[? _]|(e' & _ & _ & He)]; [done|].
      by rewrite Hwarn in He.
  - intros Hacc Hh.
    apply handle_error_segment in Hh as [[? _]|(e' & _ & _ & He)]; [done|].
    by rewrite Hacc in He.
Qed.

Lemma batch_run_completes total_urls index urls tr exc rs tr' :
  run total_urls index urls tr exc rs tr' →
  for_each_input (error_line_accepted validators_url markup_error total_urls) index urls →
  exc = None.
Proof.
  induction 1 as [ index tr
                 | index raw rest tr r tr1 exc rs tr' Hstep _ IH
                 | index raw rest tr tr1 exc rs tr' Hstep _ IH
                 | index raw rest tr e tr1 Hstep ]; cbn [for_each_input].
  - done.
  - intros [_ Hrest]. by apply IH.
  - intros [_ Hrest]. by apply IH.
  - intros [Hacc _]. by destruct (iteration_not_aborted _ _ _ _ _ _ Hacc Hstep).
Qed.

Lemma process_urls_completes (urls : list string) (tr : list event) :
  error_lines_accepted validators_url markup_error urls →
  ∃ rs tr', batch urls tt tr = (Ok rs, tt, tr').
Proof.
  intros Hacc. destruct (process_urls_run urls tr) as (exc & rs & tr' & Hrun & ->).
  rewrite (batch_run_completes _ _ _ _ _ _ _ Hrun Hacc). by eauto.
Qed.

(** The records a batch returns are built from fetches. *)
Lemma process_urls_records (urls : list string) (tr : list event)
    (rs : list (gmap string string)) (tr' : list event) :
  batch urls tt tr = (Ok rs, tt, tr') →
  Forall
    (λ r, ∃ n tr0 headers tr1,
       fetch n tt tr0 = (Ok headers, tt, tr1) ∧ r = build_result n headers)
    rs.
Proof.
  destruct (process_urls_run urls tr) as (exc & rs0 & tr0 & Hrun & ->).
  destruct exc; [done|]. intros [= <- <-]. by eapply batch_run_records.
Qed.

(** A batch of one input that normalises to [n], when the progress line
    prints and the fetch returns. *)
Lemma process_urls_single (raw n : string) (tr : list event)
    (headers : gmap string pyval) (tr1 : list event) :
  validate raw = Ok n →
  markup_error (progress_line n 1 1) = None →
  fetch n tt (tr ++ [Print (progress_line n 1 1)]) = (Ok headers, tt, tr1) →
  batch [raw] tt tr = (Ok [build_result n headers], tt, tr1).
Proof.
  intros Hv Hp Hf. unfold process_urls. cbn [length for_enumerate].
  unfold mbind, M_bind, m_bind, modify, mret, M_ret, m_ret.
  destruct (process_one_iteration 1 1 (set_url raw (MkFrame "" [])) tr) as [u ->].
  cbn [set_url url results]. unfold iteration. rewrite Hv, Hp, Hf.
  unfold pause. rewrite decide_False by lia. by rewrite app_nil_r.
Qed.

(** *** What a run leaves on the trace *)




(** A run is cut short by an input that fails validation and whose
    error line [rich] rejects. *)
Lemma batch_run_aborts total_urls (before after : list string) (raw : string)
    (e e' : exn) :
  validate raw = Raise e → markup_error (error_line raw e) = Some e' →
  ∀ index tr exc rs tr',
    run total_urls index (before ++ raw :: after) tr exc rs tr' → is_Some exc.
Proof.
  intros Hv Hm.
  assert (∀ index tr o tr1, step total_urls index raw tr = (o, tr1) → o = Aborted e')
    as Hraw.
  { intros index tr o tr1. unfold iteration, handle_error. rewrite Hv, Hm. congruence. }
  induction before as [|b before IH]; intros index tr exc rs tr' Hrun;
    cbn [app] in Hrun; inversion Hrun as [ | ? ? ? ? ? ? ? ? ? Hstep Hrest
                                           | ? ? ? ? ? ? ? ? Hstep Hrest
                                           | ? ? ? ? ? ? Hstep ]; subst.
  - by apply Hraw in Hstep.
  - by apply Hraw in Hstep.
  - by eexists.
  - by eapply IH.
  - by eapply IH.
  - by eexists.
Qed.

End Batch.

(** ** The records of a batch *)

Section Records.

Context (validators_url : string → bool).
Context (markup_error : string → option exn).
Context (requests_get : list event → request → result response).

Local Abbreviation validate := (validate_and_format_url validators_url).
Local Abbreviation batch := (process_urls validators_url markup_error requests_get).

(** C3.  A batch does not always skip an input that fails validation and
    go on: when [rich] rejects the error line of such an input, which
    holds the input, the exception leaves the handler and the batch
    raises, so that it returns no record at all, whatever the other
    inputs are. *)
Theorem C3_batch_aborts_on_error_markup (before after : list string) (raw : string)
    (e e' : exn) (tr : list event) :
  validate raw = Raise e →
  markup_error (error_line raw e) = Some e' →
  ∃ e'' tr', batch (before ++ raw :: after) tt tr = (Raise e'', tt, tr').
Proof.
  intros Hv Hm.
  destruct (process_urls_run validators_url markup_error requests_get
              (before ++ raw :: after) tr) as (exc & rs & tr' & Hrun & ->).
  destruct (batch_run_aborts _ _ _ _ before after raw e e' Hv Hm _ _ _ _ _ Hrun)
    as [e'' ->].
  by exists e'', tr'.
Qed.

(** C8. Every record that a batch returns has the URL field and one
    field for each of the four tracked headers, and no other field,
    whatever the fetches returned; and the batch does return its records
    when [rich] accepts the error lines it has to print for these
    inputs. *)
Theorem C8_record_fields (urls : list string) (tr : list event) :
  (∀ rs tr',
     batch urls tt tr = (Ok rs, tt, tr') →
     Forall
       (λ r : gmap string string,
          dom r = {[ "URL"; "content-security-policy"; "x-frame-options";
                     "strict-transport-security"; "referrer-policy" ]})
       rs) ∧
  (error_lines_accepted validators_url markup_error urls →
     ∃ rs tr', batch urls tt tr = (Ok rs, tt, tr')).
Proof.
  split; [|by apply process_urls_completes].
  intros rs tr' Hrun. apply process_urls_records in Hrun.
  eapply Forall_impl; [exact Hrun|].
  intros r (n & tr0 & headers & tr1 & _ & ->). apply build_result_fields.
Qed.

(** C10. Every tracked-header field of every record that a batch returns
    is at most 83 characters long: it is the literal Missing or a
    truncated value; and the batch does return its records when [rich]
    accepts the error lines it has to print for these inputs. *)
Theorem C10_field_length_bound (urls : list string) (tr : list event) :
  (∀ rs tr',
     batch urls tt tr = (Ok rs, tt, tr') →
     Forall
       (λ r : gmap string string,
          ∀ header, header ∈ HEADERS_TO_CHECK →
            ∃ s, r !! header = Some s ∧
                 String.length s ≤ 83 ∧
                 (s = "Missing" ∨ ∃ v, s = truncate_value v))
       rs) ∧
  (error_lines_accepted validators_url markup_error urls →
     ∃ rs tr', batch urls tt tr = (Ok rs, tt, tr')).
Proof.
  split; [|by apply process_urls_completes].
  intros rs tr' Hrun. apply process_urls_records in Hrun.
  eapply Forall_impl; [exact Hrun|].
  intros r (n & tr0 & headers & tr1 & _ & ->) header Hin.
  exists (recorded_value headers header). split; [|split].
  - by apply build_result_header.
  - apply recorded_value_length.
  - unfold recorded_value.
    destruct (dict_get headers header (PStr "Missing")) as [s|]; [by eauto | by left].
Qed.

End Records.

Lemma C3_batch_aborts_on_error_markup_witness :
  ∃ e'' tr',
    process_urls sample_validator sample_markup net_hsts
      ["example.com"; "not a url [/x]"; "http://b.org"] tt []
    = (Raise e'', tt, tr').
Proof.
  apply (C3_batch_aborts_on_error_markup sample_validator sample_markup net_hsts
           ["example.com"] ["http://b.org"] "not a url [/x]"
           (invalid_url "https://not a url [/x]")
           (MkExn MarkupError
              "closing tag '[/x]' at position 32 doesn't match any open tag") []);
    reflexivity.
Defined.

(** The failing batch of C3, run: the first input is recorded and slept
    after, the error line of the second is rejected, and the batch raises
    without returning the record it had. *)
Lemma failing_batch_run :
  process_urls sample_validator sample_markup net_hsts
    ["example.com"; "not a url [/x]"; "http://b.org"] tt []
  = (Raise (MkExn MarkupError
              "closing tag '[/x]' at position 32 doesn't match any open tag"),
     tt,
     [ Print "[cyan]Processing https://example.com (1/3)[/cyan]";
       Get (get_request "https://example.com" true);
       Print "[yellow]Rate limiting: waiting 2 seconds...[/yellow]";
       Sleep 2 ]).
Proof. reflexivity. Qed.

Lemma C8_record_fields_witness :
  ∃ rs tr',
    process_urls sample_validator sample_markup net_down
      ["example.com"; "not a url"] tt []
      = (Ok rs, tt, tr') ∧
    Forall
      (λ r : gmap string string,
         dom r = {[ "URL"; "content-security-policy"; "x-frame-options";
                    "strict-transport-security"; "referrer-policy" ]})
      rs.
Proof.
  destruct (C8_record_fields sample_validator sample_markup net_down
              ["example.com"; "not a url"] [])
    as [Hfields Hreturns].
  destruct Hreturns as (rs & tr' & Hrun); [vm_compute; repeat constructor|].
  exists rs, tr'. split; [exact Hrun | exact (Hfields rs tr' Hrun)].
Defined.

Lemma C10_field_length_bound_witness :
  ∃ rs tr',
    process_urls sample_validator sample_markup net_down ["example.com"] tt []
      = (Ok rs, tt, tr') ∧
    Forall
      (λ r : gmap string string,
         ∃ s, r !! "referrer-policy" = Some s ∧ String.length s ≤ 83)
      rs.
Proof.
  destruct (C10_field_length_bound sample_validator sample_markup net_down
              ["example.com"] [])
    as [Hbound Hreturns].
  destruct Hreturns as (rs & tr' & Hrun); [vm_compute; repeat constructor|].
  exists rs, tr'. split; [exact Hrun|].
  eapply Forall_impl; [exact (Hbound rs tr' Hrun)|].
  intros r Hr. destruct (Hr "referrer-policy") as (s & Hs & Hlen & _).
  - apply list_elem_of_lookup. exists 3. reflexivity.
  - exists s. by split.
Defined.

(** ** Tracked headers of a response *)

Section Extraction.

Context (validators_url : string → bool).
Context (markup_error : string → option exn).
Context (requests_get : list event → request → result response).

Lemma example_record :
  build_result "https://example.com"
    (lower_headers
       {| resp_headers := [("Strict-Transport-Security", "max-age=63072000")] |})
  = {[ "URL" := "https://example.com";
       "content-security-policy" := "Missing";
       "x-frame-options" := "Missing";
       "strict-transport-security" := "max-age=63072000";
       "referrer-policy" := "Missing" ]}.
Proof. reflexivity. Qed.

(** C5. Every record that a batch returns is built from a fetch.  When
    that fetch obtained a response, a tracked header that the response
    carries under any casing is recorded under its lower-case name with
    its truncated value, and a tracked header that the response does
    not carry is recorded as Missing.  The batch does return its records
    when [rich] accepts the error lines it has to print for its inputs.
    The input example.com, answered
    with the single header Strict-Transport-Security, gives the one
    record of the example, once its progress line is printed. *)
Theorem C5_tracked_headers_recorded :
  (∀ urls tr rs tr',
     process_urls validators_url markup_error requests_get urls tt tr = (Ok rs, tt, tr') →
     Forall
       (λ r : gmap string string,
          ∃ n tr0 headers tr1,
            get_headers markup_error requests_get n tt tr0 = (Ok headers, tt, tr1) ∧
            r = build_result n headers ∧
            r !! "URL" = Some n ∧
            ∀ resp, fetch_succeeds requests_get n tr0 resp →
              ∀ header, header ∈ HEADERS_TO_CHECK →
                (∀ k v,
                   NoDup (lower <$> (resp_headers resp).*1) →
                   (k, v) ∈ resp_headers resp → lower k = header →
                   r !! header = Some (truncate_value v)) ∧
                ((∀ k v, (k, v) ∈ resp_headers resp → lower k ≠ header) →
                   r !! header = Some "Missing"))
       rs) ∧
  (∀ urls tr,
     error_lines_accepted validators_url markup_error urls →
     ∃ rs tr',
       process_urls validators_url markup_error requests_get urls tt tr = (Ok rs, tt, tr')) ∧
  (∀ tr,
     validators_url "https://example.com" = true →
     markup_error (progress_line "https://example.com" 1 1) = None →
     requests_get (tr ++ [Print (progress_line "https://example.com" 1 1)])
       (get_request "https://example.com" true)
     = Ok {| resp_headers := [("Strict-Transport-Security", "max-age=63072000")] |} →
     ∃ tr',
       process_urls validators_url markup_error requests_get ["example.com"] tt tr
       = (Ok [ {[ "URL" := "https://example.com";
                  "content-security-policy" := "Missing";
                  "x-frame-options" := "Missing";
                  "strict-transport-security" := "max-age=63072000";
                  "referrer-policy" := "Missing" ]} ],
          tt, tr')).
Proof.
  split; [|split].
  - intros urls tr rs tr' Hrun. apply process_urls_records in Hrun.
    eapply Forall_impl; [exact Hrun|].
    intros r (n & tr0 & headers & tr1 & Hf & ->).
    exists n, tr0, headers, tr1. split; [done|]. split; [done|].
    split; [apply build_result_URL|].
    intros resp Hok header Hin.
    pose proof (fetch_succeeds_headers markup_error requests_get n tr0 resp headers tr1
                  Hok Hf) as ->.
    rewrite build_result_header by done. split.
    + intros k v Hnd Hkv <-.
      by rewrite (recorded_value_present _ _ v (lower_headers_present resp k v Hnd Hkv)).
    + intros Habs.
      by rewrite (recorded_value_absent _ _ (lower_headers_absent resp header Habs)).
  - intros urls tr Hacc. by apply process_urls_completes.
  - intros tr Hv Hp Hnet.
    assert (validate_and_format_url validators_url "example.com"
            = Ok "https://example.com") as Hn.
    { rewrite validate_without_scheme by done.
      change ("https://" +:+ "example.com") with "https://example.com".
      by rewrite Hv. }
    eexists.
    rewrite (process_urls_single validators_url markup_error requests_get _ _ tr _ _ Hn Hp
               ltac:(rewrite get_headers_unfold, Hnet; reflexivity)).
    by rewrite example_record.
Qed.

End Extraction.

Lemma C5_tracked_headers_recorded_witness :
  ∃ tr',
    process_urls sample_validator sample_markup net_hsts ["example.com"] tt []
    = (Ok [ {[ "URL" := "https://example.com";
               "content-security-policy" := "Missing";
               "x-frame-options" := "Missing";
               "strict-transport-security" := "max-age=63072000";
               "referrer-policy" := "Missing" ]} ],
       tt, tr').
Proof.
  destruct (C5_tracked_headers_recorded sample_validator sample_markup net_hsts)
    as (_ & _ & Hexample).
  apply (Hexample []); reflexivity.
Defined.

(** ** Pacing and progress *)

Section Pacing.

Context (validators_url : string → bool).
Context (markup_error : string → option exn).
Context (requests_get : list event → request → result response).

Local Abbreviation validate := (validate_and_format_url validators_url).
Local Abbreviation batch := (process_urls validators_url markup_error requests_get).

(** C7.  A batch of inputs that all normalise does not always sleep once
    less than it has inputs: when [rich] rejects the progress line of the
    first input, which holds its URL, and then the error line for it, the
    batch raises before any request and any sleep, however many inputs
    follow. *)
Theorem C7_no_pacing_when_progress_rejected (raw n : string) (rest : list string)
    (e1 e2 : exn) (tr : list event) :
  validate raw = Ok n →
  markup_error (progress_line n 1 (S (length rest))) = Some e1 →
  markup_error (error_line n e1) = Some e2 →
  batch (raw :: rest) tt tr = (Raise e2, tt, tr).
Proof.
  intros Hv Hp He. unfold process_urls. cbn [length for_enumerate].
  unfold mbind, M_bind, m_bind, modify.
  destruct (process_one_iteration validators_url markup_error requests_get
              (S (length rest)) 1 (set_url raw (MkFrame "" [])) tr) as [u ->].
  cbn [set_url url results]. unfold iteration, handle_error.
  by rewrite Hv, Hp, He.
Qed.



End Pacing.

Lemma C7_no_pacing_when_progress_rejected_witness :
  process_urls sample_validator sample_markup net_hsts
    ["example.com/?q=[/x]"; "b.org"] tt []
  = (Raise (MkExn MarkupError
              "closing tag '[/x]' at position 45 doesn't match any open tag"),
     tt, []).
Proof.
  apply (C7_no_pacing_when_progress_rejected sample_validator sample_markup net_hsts
           "example.com/?q=[/x]" "https://example.com/?q=[/x]" ["b.org"]
           (MkExn MarkupError
              "closing tag '[/x]' at position 40 doesn't match any open tag"));
    reflexivity.
Defined.



(** * Further properties of the normaliser, the fetcher and the loop *)

Section NormalizerMore.

Context (validators_url : string → bool).

Lemma startswith_https (s : string) :
  startswith ("https://" +:+ s) ["http://"; "https://"] = true.
Proof.
  unfold startswith. cbn [existsb]. apply orb_true_iff. right.
  apply orb_true_iff. left. apply String.prefix_correct.
  cbn. by destruct s.
Qed.

Lemma validate_ok_inv (raw n : string) :
  validate_and_format_url validators_url raw = Ok n →
  startswith n ["http://"; "https://"] = true ∧ validators_url n = true.
Proof.
  destruct (startswith raw ["http://"; "https://"]) eqn:Hs.
  - rewrite validate_with_scheme by done.
    destruct (validators_url raw) eqn:Hv; [|done]. by intros [= <-].
  - rewrite validate_without_scheme by done.
    destruct (validators_url ("https://" +:+ raw)) eqn:Hv; [|done].
    intros [= <-]. split; [apply startswith_https | done].
Qed.

(** X1. A normalised URL begins with http:// or https:// and has passed
    the validator, and normalising it again returns it unchanged. *)
Theorem X1_normalized_is_fixed_point (raw n : string) :
  validate_and_format_url validators_url raw = Ok n →
  (String.prefix "http://" n = true ∨ String.prefix "https://" n = true) ∧
  validators_url n = true ∧
  validate_and_format_url validators_url n = Ok n.
Proof.
  intros Hn. apply validate_ok_inv in Hn as [Hs Hv].
  split; [by apply startswith_schemes|]. split; [done|].
  rewrite validate_with_scheme by done. by rewrite Hv.
Qed.

End NormalizerMore.

Lemma X1_normalized_is_fixed_point_witness :
  validate_and_format_url sample_validator "https://example.com" = Ok "https://example.com".
Proof.
  destruct (X1_normalized_is_fixed_point sample_validator "example.com" "https://example.com")
    as (_ & _ & Hfix); [reflexivity | exact Hfix].
Defined.

(** X2. The result of [truncate_value] is 83 characters long when the
    value has more than 80 and as long as the value otherwise; so a value
    of 81 or 82 characters comes out longer than it went in. *)
Theorem X2_truncate_value_length_exact (value : string) :
  String.length (truncate_value value)
    = (if decide (80 < String.length value) then 83 else String.length value) ∧
  (80 < String.length value < 83 →
     String.length value < String.length (truncate_value value)).
Proof.
  assert (String.length (truncate_value value)
          = if decide (80 < String.length value) then 83 else String.length value) as Hlen.
  { case_decide as Hlong.
    - rewrite truncate_value_long, string_length_app, slice_to_length by done.
      unfold MAX_HEADER_LENGTH. simpl String.length. lia.
    - rewrite truncate_value_short; [done | unfold MAX_HEADER_LENGTH; lia]. }
  split; [exact Hlen|].
  intros [Hlo Hhi]. rewrite Hlen. rewrite decide_True by done. lia.
Qed.

Lemma X2_truncate_value_length_exact_witness :
  String.length
    "max-age=31536000; includeSubDomains; preload; report-to=default; report-uri=/hsts"
  < String.length
      (truncate_value
         "max-age=31536000; includeSubDomains; preload; report-to=default; report-uri=/hsts").
Proof.
  destruct (X2_truncate_value_length_exact
    "max-age=31536000; includeSubDomains; preload; report-to=default; report-uri=/hsts")
    as [_ Hgrow].
  apply Hgrow. split; apply Nat.ltb_lt; reflexivity.
Defined.

(** ** The header dictionary of a response *)

(** X3. The header dictionary built from a response has a key exactly
    for the lower-cased name of each header of the response, and every
    key of it is in lower case. *)
Theorem X3_lower_headers_keys (resp : response) (k : string) :
  (is_Some (lower_headers resp !! k) ↔
     ∃ name value, (name, value) ∈ resp_headers resp ∧ lower name = k) ∧
  (is_Some (lower_headers resp !! k) → lower k = k).
Proof.
  assert (is_Some (lower_headers resp !! k) →
          ∃ name value, (name, value) ∈ resp_headers resp ∧ lower name = k) as Hkeys.
  { intros [v Hv]. unfold lower_headers, dict_of_items in Hv.
    apply foldl_insert_Some_inv in Hv as [Hin|Hempty]; [|by rewrite lookup_empty in Hempty].
    apply list_elem_of_fmap in Hin as ([name value] & [= -> ->] & Hin).
    by exists name, value. }
  split; [split; [exact Hkeys|]|].
  - intros (name & value & Hin & <-). unfold lower_headers, dict_of_items.
    apply foldl_insert_is_Some. rewrite lower_headers_keys.
    apply list_elem_of_fmap. exists name. split; [done|].
    apply list_elem_of_fmap. by exists (name, value).
  - intros Hsome. destruct (Hkeys Hsome) as (name & value & _ & <-). apply lower_idem.
Qed.

Lemma X3_lower_headers_keys_witness :
  is_Some
    (lower_headers {| resp_headers := [("X-Frame-Options", "DENY")] |} !! "x-frame-options").
Proof.
  destruct (X3_lower_headers_keys
              {| resp_headers := [("X-Frame-Options", "DENY")] |} "x-frame-options")
    as [[_ Hin] _].
  apply Hin. exists "X-Frame-Options", "DENY". split; [|reflexivity].
  apply list_elem_of_here.
Defined.

(** X5. The record of a URL depends on the tracked headers alone: two
    header dictionaries that agree on the four tracked names give the
    same record, whatever else they hold. *)
Theorem X5_record_ignores_untracked (url : string) (headers1 headers2 : gmap string pyval) :
  (∀ header, header ∈ HEADERS_TO_CHECK → headers1 !! header = headers2 !! header) →
  build_result url headers1 = build_result url headers2.
Proof.
  intros Hagree. apply map_eq. intros k.
  destruct (decide (k ∈ HEADERS_TO_CHECK)) as [Hin|Hnin].
  - rewrite !build_result_header by done.
    unfold recorded_value, dict_get. by rewrite (Hagree k Hin).
  - destruct (decide (k = "URL")) as [->|Hne].
    + by rewrite !build_result_URL.
    + by rewrite !build_result_other.
Qed.

Lemma X5_record_ignores_untracked_witness :
  build_result "https://example.com"
    (lower_headers {| resp_headers := [("Server", "nginx"); ("X-Frame-Options", "DENY")] |})
  = build_result "https://example.com"
      (lower_headers {| resp_headers := [("X-Frame-Options", "DENY")] |}).
Proof.
  apply X5_record_ignores_untracked.
  intros header Hin.
  unfold HEADERS_TO_CHECK in Hin.
  repeat (apply elem_of_cons in Hin as [->|Hin]; [reflexivity|]).
  by apply elem_of_nil in Hin.
Defined.

(** ** The degraded fetch *)

Section Degraded.

Context (markup_error : string → option exn).
Context (requests_get : list event → request → result response).

(** X17. [get_headers] raises in one case only: the verified request
    failed on the certificate and [rich] rejected the warning line; the
    exception is then that of [rich].  In every other case it returns.
    When the verified request fails with another exception, or when the
    fallback fails after the warning was printed, the dictionary it
    returns maps each of the four tracked names to the non-empty string
    made of Error and the message of the exception, and the record built
    from it for the URL holds that string, truncated and still not
    empty, under each tracked name, and the URL under URL. *)
Theorem X17_get_headers_degraded (url : string) (tr : list event) :
  ∃ res new,
    get_headers markup_error requests_get url tt tr = (res, tt, tr ++ new) ∧
    (∀ e', res = Raise e' →
       markup_error (ssl_warning url) = Some e' ∧
       ∃ e, requests_get tr (get_request url true) = Raise e ∧ is_SSLError e = true) ∧
    (markup_error (ssl_warning url) = None → ∃ headers, res = Ok headers) ∧
    (∀ e, requests_get tr (get_request url true) = Raise e → is_SSLError e = false →
       res = Ok (error_headers e)) ∧
    (∀ e1 e,
       requests_get tr (get_request url true) = Raise e1 → is_SSLError e1 = true →
       markup_error (ssl_warning url) = None →
       requests_get (tr ++ [Get (get_request url true); Print (ssl_warning url)])
         (get_request url false) = Raise e →
       res = Ok (error_headers e)) ∧
    ∀ e,
      (∀ header, header ∈ HEADERS_TO_CHECK →
         error_headers e !! header = Some (PStr ("Error: " +:+ exn_str e)) ∧
         "Error: " +:+ exn_str e ≠ "" ∧
         build_result url (error_headers e) !! header
           = Some (truncate_value ("Error: " +:+ exn_str e)) ∧
         truncate_value ("Error: " +:+ exn_str e) ≠ "") ∧
      build_result url (error_headers e) !! "URL" = Some url.
Proof.
  destruct (get_headers_cases markup_error requests_get url tr)
    as (res & new & Hrun & _ & _ & Hraise).
  exists res, new. split; [exact Hrun|]. split; [|split; [|split; [|split]]].
  - intros e' He'. destruct (Hraise e' He') as (_ & Hw & Hfirst). by split.
  - intros Hw. destruct res as [headers|e']; [by eexists|].
    destruct (Hraise e' eq_refl) as (_ & Hw' & _). congruence.
  - intros e Hfirst Hssl. rewrite get_headers_unfold, Hfirst, Hssl in Hrun.
    by injection Hrun as <- _.
  - intros e1 e Hfirst Hssl Hw Hsecond.
    rewrite get_headers_unfold, Hfirst, Hssl, Hw, Hsecond in Hrun.
    by injection Hrun as <- _.
  - intros e. split; [|apply build_result_URL].
    intros header Hin.
    pose proof (error_headers_lookup e header Hin) as Hl.
    split; [exact Hl|]. split; [done|].
    rewrite build_result_header by done.
    rewrite (recorded_value_present _ _ _ Hl).
    split; [done|]. by apply truncate_value_nonempty.
Qed.

End Degraded.

Lemma X17_get_headers_degraded_witness :
  get_headers sample_markup net_down "https://example.com" tt []
  = (Ok (error_headers (MkExn ConnectionError "connection refused")), tt,
     [Get (get_request "https://example.com" true)]) ∧
  build_result "https://example.com"
    (error_headers (MkExn ConnectionError "connection refused")) !! "x-frame-options"
  = Some "Error: connection refused".
Proof.
  destruct (X17_get_headers_degraded sample_markup net_down "https://example.com" [])
    as (res & new & Hrun & _ & _ & Hfail & _ & Hfields).
  rewrite (Hfail (MkExn ConnectionError "connection refused") eq_refl eq_refl) in Hrun.
  split.
  - rewrite Hrun. f_equal. injection Hrun as <-. reflexivity.
  - destruct (Hfields (MkExn ConnectionError "connection refused")) as [Hheader _].
    destruct (Hheader "x-frame-options") as (_ & _ & Hfield & _).
    + apply list_elem_of_lookup. exists 1. reflexivity.
    + exact Hfield.
Defined.

(** ** Requests and sleeps of a batch in general *)

Lemma count_gets_app (tr1 tr2 : list event) :
  count_gets (tr1 ++ tr2) = count_gets tr1 + count_gets tr2.
Proof. unfold count_gets. by rewrite List.filter_app, length_app. Qed.

Lemma count_gets_fetch (url : string) (evs : list event) :
  fetch_trace url evs → 1 ≤ count_gets evs ≤ 2.
Proof. intros [->| ->]; cbn; lia. Qed.

Lemma count_gets_pause (total_urls index : nat) :
  count_gets (pause total_urls index) = 0.
Proof. unfold pause. by case_decide. Qed.

Lemma fetch_trace_requests (url : string) (evs : list event) (r : request) :
  fetch_trace url evs → Get r ∈ evs → ∃ verify, r = get_request url verify.
Proof.
  intros [->| ->] Hin.
  - apply list_elem_of_singleton in Hin as [= ->]. by eexists.
  - repeat (apply elem_of_cons in Hin as [Heq|Hin];
            [by (discriminate Heq || (injection Heq as ->; eexists))|]).
    by apply elem_of_nil in Hin.
Qed.

Lemma pause_no_request (total_urls index : nat) (r : request) :
  Get r ∉ pause total_urls index.
Proof.
  unfold pause. case_decide; [|apply not_elem_of_nil].
  intros Hin. repeat (apply elem_of_cons in Hin as [Heq|Hin]; [discriminate Heq|]).
  by apply elem_of_nil in Hin.
Qed.

Lemma omap_cons_length {A B} (f : A → option B) (x : A) (l : list A) :
  length (omap f l) ≤ length (omap f (x :: l)).
Proof. cbn. destruct (f x); cbn; lia. Qed.

Section BatchMore.

Context (validators_url : string → bool).
Context (markup_error : string → option exn).
Context (requests_get : list event → request → result response).

Local Abbreviation validate := (validate_and_format_url validators_url).
Local Abbreviation batch := (process_urls validators_url markup_error requests_get).
Local Abbreviation step := (iteration validators_url markup_error requests_get).
Local Abbreviation run := (batch_run validators_url markup_error requests_get).
Local Abbreviation valid := (normalized validators_url).

(** What one segment holds, by the way the input ended. *)
Lemma segment_facts (total_urls index : nat) (raw : string) (o : outcome)
    (seg : list event) :
  segment_of validators_url markup_error total_urls index raw o seg →
  (∀ r, Get r ∈ seg → ∃ n verify, validate raw = Ok n ∧ r = get_request n verify) ∧
  count_gets seg ≤ 2 * length (omap valid [raw]) ∧
  match o with
  | Recorded _ =>
      1 ≤ count_gets seg ∧ is_Some (valid raw) ∧
      count_sleeps seg = (if decide (index < total_urls) then 1 else 0)
  | _ => count_sleeps seg = 0
  end.
Proof.
  unfold segment_of, normalized. cbn [omap list_omap].
  destruct (validate raw) as [n|e].
  - destruct (markup_error (progress_line n index total_urls)) as [e1|].
    + intros [[-> ->]|(e' & -> & ->)].
      * split; [|split; [cbn; lia | done]].
        intros r Hin. apply list_elem_of_singleton in Hin. discriminate Hin.
      * split; [|split; [cbn; lia | done]].
        intros r Hin. by apply elem_of_nil in Hin.
    + intros [(headers & fetch & -> & Hfetch & ->)|[(e1 & -> & ->)|(e1 & -> & ->)]].
      * change (Print ?p :: ?l) with ([Print p] ++ l).
        rewrite !count_gets_app, !count_sleeps_app, count_gets_pause,
          count_sleeps_pause, (count_sleeps_fetch n fetch Hfetch).
        pose proof (count_gets_fetch n fetch Hfetch).
        change (count_gets [Print _]) with 0. change (count_sleeps [Print _]) with 0.
        split; [|split; [cbn; lia|]].
        -- intros r Hin. rewrite !elem_of_app in Hin.
           destruct Hin as [Hin|[Hin|Hin]].
           ++ apply list_elem_of_singleton in Hin. discriminate Hin.
           ++ destruct (fetch_trace_requests n fetch r Hfetch Hin) as [verify ->].
              by exists n, verify.
           ++ by apply pause_no_request in Hin.
        -- split; [lia|]. split; [by eexists | done].
      * split; [|split; [cbn; lia | done]].
        intros r Hin.
        repeat (apply elem_of_cons in Hin as [Heq|Hin];
                [by (discriminate Heq || (injection Heq as ->; exists n, true))|]).
        by apply elem_of_nil in Hin.
      * split; [|split; [cbn; lia | done]].
        intros r Hin.
        repeat (apply elem_of_cons in Hin as [Heq|Hin];
                [by (discriminate Heq || (injection Heq as ->; exists n, true))|]).
        by apply elem_of_nil in Hin.
  - intros [[-> ->]|(e' & -> & ->)].
    + split; [|split; [cbn; lia | done]].
      intros r Hin. apply list_elem_of_singleton in Hin. discriminate Hin.
    + split; [|split; [cbn; lia | done]].
      intros r Hin. by apply elem_of_nil in Hin.
Qed.

(** The events a run adds to the trace, counted. *)
Lemma batch_run_events total_urls index urls tr exc rs tr' :
  run total_urls index urls tr exc rs tr' →
  ∃ new,
    tr' = tr ++ new ∧
    (∀ r, Get r ∈ new →
       ∃ raw n verify, raw ∈ urls ∧ validate raw = Ok n ∧ r = get_request n verify) ∧
    count_gets new ≤ 2 * length (omap valid urls) ∧
    length rs ≤ length (omap valid urls) ∧
    length rs ≤ count_gets new ∧
    count_sleeps new ≤ length (omap valid (take (total_urls - index) urls)).
Proof.
  induction 1 as [ index tr
                 | index raw rest tr r tr1 exc rs tr' Hstep _ IH
                 | index raw rest tr tr1 exc rs tr' Hstep _ IH
                 | index raw rest tr e tr1 Hstep ].
  - exists []. rewrite app_nil_r. split; [done|]. split; [|by cbn; lia].
    intros r Hin. by apply elem_of_nil in Hin.
  - destruct IH as (new & -> & Hreq & Hgets & Hlen & Hlen' & Hsleeps).
    apply iteration_segment in Hstep as (seg & -> & Hseg).
    apply segment_facts in Hseg as (Hreq0 & Hgets0 & Hone & [n Hn] & Hsleeps0).
    exists (seg ++ new). split; [by rewrite <- app_assoc|].
    rewrite count_gets_app, count_sleeps_app.
    cbn [omap list_omap length] in *. rewrite Hn in *. cbn [length] in *.
    split; [|split; [lia | split; [lia | split; [lia|]]]].
    + intros r0 Hin. apply elem_of_app in Hin as [Hin|Hin].
      * destruct (Hreq0 r0 Hin) as (n0 & verify & Hv & ->).
        exists raw, n0, verify. split; [apply list_elem_of_here | done].
      * destruct (Hreq r0 Hin) as (raw' & n0 & verify & Hraw & Hv & ->).
        exists raw', n0, verify. split; [by apply elem_of_cons; right | done].
    + rewrite Hsleeps0. destruct (decide (index < total_urls)) as [Hlt|Hge].
      * replace (total_urls - index) with (S (total_urls - S index)) by lia.
        cbn [take omap list_omap]. rewrite Hn. cbn [length]. lia.
      * replace (total_urls - S index) with 0 in Hsleeps by lia.
        rewrite take_0 in Hsleeps. cbn in Hsleeps. lia.
  - destruct IH as (new & -> & Hreq & Hgets & Hlen & Hlen' & Hsleeps).
    apply iteration_segment in Hstep as (seg & -> & Hseg).
    apply segment_facts in Hseg as (Hreq0 & Hgets0 & Hsleeps0).
    exists (seg ++ new). split; [by rewrite <- app_assoc|].
    rewrite count_gets_app, count_sleeps_app.
    pose proof (omap_cons_length valid raw rest) as Hmono.
    split; [|split; [|split; [lia | split; [lia|]]]].
    + intros r0 Hin. apply elem_of_app in Hin as [Hin|Hin].
      * destruct (Hreq0 r0 Hin) as (n0 & verify & Hv & ->).
        exists raw, n0, verify. split; [apply list_elem_of_here | done].
      * destruct (Hreq r0 Hin) as (raw' & n0 & verify & Hraw & Hv & ->).
        exists raw', n0, verify. split; [by apply elem_of_cons; right | done].
    + cbn [omap list_omap length] in *. destruct (valid raw); cbn [length] in *; lia.
    + rewrite Hsleeps0. destruct (decide (index < total_urls)) as [Hlt|Hge].
      * replace (total_urls - index) with (S (total_urls - S index)) by lia.
        cbn [take].
        pose proof (omap_cons_length valid raw (take (total_urls - S index) rest)). lia.
      * replace (total_urls - S index) with 0 in Hsleeps by lia.
        rewrite take_0 in Hsleeps. cbn in Hsleeps. lia.
  - apply iteration_segment in Hstep as (seg & -> & Hseg).
    apply segment_facts in Hseg as (Hreq0 & Hgets0 & Hsleeps0).
    exists seg. split; [done|].
    pose proof (omap_cons_length valid raw rest) as Hmono.
    split; [|split; [|split; [cbn; lia | split; [cbn; lia | lia]]]].
    + intros r0 Hin. destruct (Hreq0 r0 Hin) as (n0 & verify & Hv & ->).
      exists raw, n0, verify. split; [apply list_elem_of_here | done].
    + cbn [omap list_omap length] in *. destruct (valid raw); cbn [length] in *; lia.
Qed.

(** When [rich] accepts the lines of an input, the input is recorded
    exactly when it normalises. *)
Lemma iteration_quiet (total_urls index : nat) (raw : string) (tr : list event)
    (o : outcome) (tr1 : list event) :
  lines_accepted validators_url markup_error total_urls index raw →
  step total_urls index raw tr = (o, tr1) →
  match valid raw with
  | Some _ => ∃ r, o = Recorded r
  | None => o = Skipped
  end.
Proof.
  unfold lines_accepted, iteration, handle_error, normalized.
  destruct (validate raw) as [n|e].
  - intros [Hprogress Hwarn]. rewrite Hprogress.
    destruct (get_headers_cases markup_error requests_get n
                (tr ++ [Print (progress_line n index total_urls)]))
      as (res & new & -> & _ & _ & Hraise).
    destruct res as [headers|e1].
    + intros [= <- _]. by eexists.
    + destruct (Hraise e1 eq_refl) as (_ & He1 & _). by rewrite Hwarn in He1.
  - intros ->. by intros [= <- _].
Qed.

Lemma batch_run_quiet total_urls index urls tr exc rs tr' :
  run total_urls index urls tr exc rs tr' →
  for_each_input (lines_accepted validators_url markup_error total_urls) index urls →
  exc = None ∧
  length rs = length (omap valid urls) ∧
  ∃ new, tr' = tr ++ new ∧
    count_sleeps new = length (omap valid (take (total_urls - index) urls)).
Proof.
  induction 1 as [ index tr
                 | index raw rest tr r tr1 exc rs tr' Hstep _ IH
                 | index raw rest tr tr1 exc rs tr' Hstep _ IH
                 | index raw rest tr e tr1 Hstep ]; cbn [for_each_input].
  - intros _. split; [done|]. split; [done|].
    exists []. rewrite app_nil_r, take_nil. by cbn.
  - intros [Hquiet Hrest]. destruct (IH Hrest) as (-> & Hlen & new & -> & Hsleeps).
    pose proof (iteration_quiet _ _ _ _ _ _ Hquiet Hstep) as Hvalid.
    apply iteration_segment in Hstep as (seg & -> & Hseg).
    apply segment_facts in Hseg as (_ & _ & _ & _ & Hsleeps0).
    destruct (valid raw) as [n|] eqn:Hn; [|discriminate Hvalid].
    split; [done|]. split; [cbn [omap list_omap]; rewrite Hn; cbn; lia|].
    exists (seg ++ new). split; [by rewrite <- app_assoc|].
    rewrite count_sleeps_app, Hsleeps0, Hsleeps.
    destruct (decide (index < total_urls)) as [Hlt|Hge].
    + replace (total_urls - index) with (S (total_urls - S index)) by lia.
      cbn [take omap list_omap]. by rewrite Hn.
    + replace (total_urls - index) with 0 by lia.
      replace (total_urls - S index) with 0 by lia. by rewrite !take_0.
  - intros [Hquiet Hrest]. destruct (IH Hrest) as (-> & Hlen & new & -> & Hsleeps).
    pose proof (iteration_quiet _ _ _ _ _ _ Hquiet Hstep) as Hvalid.
    apply iteration_segment in Hstep as (seg & -> & Hseg).
    apply segment_facts in Hseg as (_ & _ & Hsleeps0).
    destruct (valid raw) as [n|] eqn:Hn; [by destruct Hvalid as [? [=]]|].
    split; [done|]. split; [cbn [omap list_omap]; by rewrite Hn|].
    exists (seg ++ new). split; [by rewrite <- app_assoc|].
    rewrite count_sleeps_app, Hsleeps0, Hsleeps.
    destruct (decide (index < total_urls)) as [Hlt|Hge].
    + replace (total_urls - index) with (S (total_urls - S index)) by lia.
      cbn [take omap list_omap]. by rewrite Hn.
    + replace (total_urls - index) with 0 by lia.
      replace (total_urls - S index) with 0 by lia. by rewrite !take_0.
  - intros [Hquiet _].
    pose proof (iteration_quiet _ _ _ _ _ _ Hquiet Hstep) as Hvalid.
    destruct (valid raw); [by destruct Hvalid as [? [=]] | discriminate Hvalid].
Qed.

(** X6. Every request of a batch, whether the batch returns or raises,
    goes to the normalised URL of one of the inputs, a URL that the
    validator has accepted, and is made with the timeout of 10,
    redirects allowed and the fixed request headers.  No request is made
    for an input that fails validation.  The batch returns when [rich]
    accepts the error lines it has to print for these inputs. *)
Theorem X6_requests_only_to_validated_urls (urls : list string) (tr : list event) :
  ∃ res new,
    batch urls tt tr = (res, tt, tr ++ new) ∧
    (∀ r, Get r ∈ new →
       ∃ raw, raw ∈ urls ∧
         validate raw = Ok (req_url r) ∧
         validators_url (req_url r) = true ∧
         req_timeout r = 10 ∧
         req_allow_redirects r = true ∧
         req_headers r = REQUEST_HEADERS) ∧
    (error_lines_accepted validators_url markup_error urls → ∃ rs, res = Ok rs).
Proof.
  destruct (process_urls_run validators_url markup_error requests_get urls tr)
    as (exc & rs & tr' & Hrun & Hbatch).
  destruct (batch_run_events _ _ _ _ _ _ _ Hrun) as (new & -> & Hreq & _).
  eexists _, new. split; [exact Hbatch|]. split.
  - intros r Hin. destruct (Hreq r Hin) as (raw & n & verify & Hraw & Hn & ->).
    exists raw. cbn. split; [done|]. split; [done|].
    split; [|done]. by apply (validate_ok_inv validators_url raw n).
  - intros Hacc. rewrite (batch_run_completes _ _ _ _ _ _ _ _ _ _ Hrun Hacc).
    by eexists.
Qed.

(** X7. A batch makes at most two requests for each input that
    normalises and none for the others.  The records it returns are at
    most as many as the inputs that normalise, and each has cost at least
    one request.  When [rich] accepts the lines that carry these inputs,
    the batch returns exactly one record for each input that
    normalises. *)
Theorem X7_request_count (urls : list string) (tr : list event) :
  ∃ res new,
    batch urls tt tr = (res, tt, tr ++ new) ∧
    count_gets new ≤ 2 * length (omap valid urls) ∧
    (∀ rs, res = Ok rs →
       length rs ≤ length (omap valid urls) ∧ length rs ≤ count_gets new) ∧
    (console_accepts validators_url markup_error urls →
       ∃ rs, res = Ok rs ∧ length rs = length (omap valid urls)).
Proof.
  destruct (process_urls_run validators_url markup_error requests_get urls tr)
    as (exc & rs & tr' & Hrun & Hbatch).
  destruct (batch_run_events _ _ _ _ _ _ _ Hrun)
    as (new & -> & _ & Hgets & Hlen & Hlen' & _).
  eexists _, new. split; [exact Hbatch|]. split; [done|]. split.
  - intros rs0 Hres. destruct exc; [done|]. by injection Hres as <-.
  - intros Hquiet.
    destruct (batch_run_quiet _ _ _ _ _ _ _ Hrun Hquiet) as (-> & Hexact & _).
    by exists rs.
Qed.

(** X8. In any batch, the sleeps are at most as many as the inputs that
    normalise, the one in last position left aside; and they are exactly
    as many when [rich] accepts the lines that carry these inputs,
    whether or not the last input normalises. *)
Theorem X8_sleeps_in_any_batch (urls : list string) (tr : list event) :
  ∃ res new,
    batch urls tt tr = (res, tt, tr ++ new) ∧
    count_sleeps new ≤ length (omap valid (take (length urls - 1) urls)) ∧
    (console_accepts validators_url markup_error urls →
       count_sleeps new = length (omap valid (take (length urls - 1) urls))).
Proof.
  destruct (process_urls_run validators_url markup_error requests_get urls tr)
    as (exc & rs & tr' & Hrun & Hbatch).
  destruct (batch_run_events _ _ _ _ _ _ _ Hrun) as (new & -> & _ & _ & _ & _ & Hsleeps).
  eexists _, new. split; [exact Hbatch|]. split; [done|].
  intros Hquiet.
  destruct (batch_run_quiet _ _ _ _ _ _ _ Hrun Hquiet) as (_ & _ & new' & Hnew & Hexact).
  by apply app_inv_head in Hnew as <-.
Qed.

(** The URL fields of the records of a run follow the inputs. *)
Lemma batch_run_urls total_urls index urls tr exc rs tr' :
  run total_urls index urls tr exc rs tr' →
  sublist ((λ r : gmap string string, r !! "URL") <$> rs) (Some <$> omap valid urls) ∧
  (for_each_input (lines_accepted validators_url markup_error total_urls) index urls →
   (λ r : gmap string string, r !! "URL") <$> rs = Some <$> omap valid urls).
Proof.
  induction 1 as [ index tr
                 | index raw rest tr r tr1 exc rs tr' Hstep _ IH
                 | index raw rest tr tr1 exc rs tr' Hstep _ IH
                 | index raw rest tr e tr1 Hstep ]; cbn [for_each_input].
  - split; [constructor | done].
  - destruct IH as [Hsub Heq].
    apply iteration_recorded in Hstep as (n & headers & new & Hv & _ & _ & _ & -> & _).
    assert (valid raw = Some n) as Hn by (unfold normalized; by rewrite Hv).
    cbn [fmap list_fmap omap list_omap]. rewrite Hn, build_result_URL.
    cbn [fmap list_fmap]. split.
    + by apply sublist_skip.
    + intros [_ Hrest]. f_equal. by apply Heq.
  - destruct IH as [Hsub Heq]. split.
    + cbn [omap list_omap]. destruct (valid raw); [|done].
      cbn [fmap list_fmap]. by apply sublist_cons.
    + intros [Hquiet Hrest].
      pose proof (iteration_quiet _ _ _ _ _ _ Hquiet Hstep) as Hvalid.
      cbn [omap list_omap]. destruct (valid raw); [by destruct Hvalid as [? [=]]|].
      by apply Heq.
  - split; [apply sublist_nil_l|].
    intros [Hquiet _].
    pose proof (iteration_quiet _ _ _ _ _ _ Hquiet Hstep) as Hvalid.
    destruct (valid raw); [by destruct Hvalid as [? [=]] | discriminate Hvalid].
Qed.

(** X18. The records a batch returns follow the inputs: their URL
    fields, in order, are normalised URLs of the inputs, in the order of
    the inputs, each input giving at most one record.  When [rich]
    accepts the lines that carry these inputs, the batch returns, and the
    URL fields of its records are exactly the normalised URLs of the
    inputs that normalise, in order: an input that fails validation is
    skipped and the others keep their order. *)
Theorem X18_records_in_input_order (urls : list string) (tr : list event) :
  ∃ res tr',
    batch urls tt tr = (res, tt, tr') ∧
    (∀ rs, res = Ok rs →
       sublist ((λ r : gmap string string, r !! "URL") <$> rs)
         (Some <$> omap valid urls)) ∧
    (console_accepts validators_url markup_error urls →
       ∃ rs, res = Ok rs ∧
         (λ r : gmap string string, r !! "URL") <$> rs = Some <$> omap valid urls).
Proof.
  destruct (process_urls_run validators_url markup_error requests_get urls tr)
    as (exc & rs & tr' & Hrun & Hbatch).
  destruct (batch_run_urls _ _ _ _ _ _ _ Hrun) as [Hsub Heq].
  eexists _, tr'. split; [exact Hbatch|]. split.
  - intros rs0 Hres. destruct exc; [done|]. by injection Hres as <-.
  - intros Hquiet.
    destruct (batch_run_quiet _ _ _ _ _ _ _ Hrun Hquiet) as (-> & _).
    exists rs. split; [done|]. by apply Heq.
Qed.

End BatchMore.

Lemma X6_requests_only_to_validated_urls_witness :
  ∃ res new,
    process_urls sample_validator sample_markup net_selfsigned
      ["example.com"; "not a url"] tt []
      = (res, tt, [] ++ new) ∧
    (Get (get_request "https://not a url" true) ∈ new → False).
Proof.
  destruct (X6_requests_only_to_validated_urls sample_validator sample_markup
              net_selfsigned ["example.com"; "not a url"] [])
    as (res & new & Hrun & Hreq & _).
  exists res, new. split; [exact Hrun|].
  intros Hin. destruct (Hreq _ Hin) as (raw & _ & _ & Hvalid & _).
  discriminate Hvalid.
Defined.

Lemma X7_request_count_witness :
  ∃ rs new,
    process_urls sample_validator sample_markup net_selfsigned
      ["example.com"; "not a url"] tt []
      = (Ok rs, tt, [] ++ new) ∧
    length rs = 1.
Proof.
  destruct (X7_request_count sample_validator sample_markup net_selfsigned
              ["example.com"; "not a url"] [])
    as (res & new & Hrun & _ & _ & Hquiet).
  destruct Hquiet as (rs & -> & Hlen); [vm_compute; repeat constructor|].
  exists rs, new. split; [exact Hrun | exact Hlen].
Defined.

Lemma X8_sleeps_in_any_batch_witness :
  ∃ res new,
    process_urls sample_validator sample_markup net_hsts
      ["example.com"; "not a url"] tt []
      = (res, tt, [] ++ new) ∧
    count_sleeps new = 1.
Proof.
  destruct (X8_sleeps_in_any_batch sample_validator sample_markup net_hsts
              ["example.com"; "not a url"] [])
    as (res & new & Hrun & _ & Hquiet).
  exists res, new. split; [exact Hrun|]. apply Hquiet. vm_compute. repeat constructor.
Defined.

Lemma X18_records_in_input_order_witness :
  ∃ rs tr',
    process_urls sample_validator sample_markup net_hsts
      ["example.com"; "not a url"; "http://b.org"] tt []
      = (Ok rs, tt, tr') ∧
    (λ r : gmap string string, r !! "URL") <$> rs
      = [Some "https://example.com"; Some "http://b.org"].
Proof.
  destruct (X18_records_in_input_order sample_validator sample_markup net_hsts
              ["example.com"; "not a url"; "http://b.org"] [])
    as (res & tr' & Hrun & _ & Hquiet).
  destruct Hquiet as (rs & -> & Hurls); [vm_compute; repeat constructor|].
  exists rs, tr'. split; [exact Hrun | exact Hurls].
Defined.

(** * The table and the CSV file *)

Lemma tracked_fields_has_fields (r : gmap string string) :
  tracked_fields r → has_fields r.
Proof.
  intros Hdom. unfold has_fields. apply Forall_forall. intros name Hin.
  apply elem_of_dom. rewrite Hdom. apply tracked_field_names.
  unfold fieldnames in Hin. apply elem_of_cons in Hin. tauto.
Qed.

Lemma has_fields_dec (r : gmap string string) : Decision (has_fields r).
Proof. unfold has_fields. apply _. Qed.

(** The cells of a row, read one field after the other. *)
Lemma row_values_run {L} (r : gmap string string) (l : L) (tr : list event) :
  ∃ res,
    row_values r l tr = (res, l, tr) ∧
    (has_fields r → res = Ok (record_row r)) ∧
    (¬ has_fields r → ∃ e, res = Raise e).
Proof.
  assert (has_fields r ↔
          is_Some (r !! "URL") ∧ is_Some (r !! "content-security-policy") ∧
          is_Some (r !! "x-frame-options") ∧ is_Some (r !! "strict-transport-security") ∧
          is_Some (r !! "referrer-policy")) as Hfields.
  { unfold has_fields, fieldnames, HEADERS_TO_CHECK.
    rewrite !Forall_cons, Forall_nil. tauto. }
  unfold row_values, record_row, fieldnames, HEADERS_TO_CHECK.
  cbn [list_comp fmap list_fmap].
  unfold mbind, M_bind, m_bind, mret, M_ret, m_ret, call_pure, dict_index.
  destruct (r !! "URL") as [v0|];
    [destruct (r !! "content-security-policy") as [v1|];
     [destruct (r !! "x-frame-options") as [v2|];
      [destruct (r !! "strict-transport-security") as [v3|];
       [destruct (r !! "referrer-policy") as [v4|] |] |] |] |];
    eexists; (split; [reflexivity|]); split;
    first
      [ by intros _
      | by intros _; eexists
      | intros Hall; apply Hfields in Hall as (H0 & H1 & H2 & H3 & H4); exfalso;
        by (destruct H0 as [? ?] || destruct H1 as [? ?] || destruct H2 as [? ?]
            || destruct H3 as [? ?] || destruct H4 as [? ?])
      | intros Hnot; exfalso; apply Hnot, Hfields; by eauto 10 ].
Qed.

Lemma display_rows_ok {L} (t : table) (rs : list (gmap string string)) (l : L)
    (tr : list event) :
  Forall has_fields rs →
  for_fold (λ table result, values ← row_values result; mret (add_row values table)) t rs l tr
  = (Ok {| tbl_show_header := tbl_show_header t;
           tbl_header_style := tbl_header_style t;
           tbl_columns := tbl_columns t;
           tbl_rows := tbl_rows t ++ (record_row <$> rs) |}, l, tr).
Proof.
  revert t. induction rs as [|r rs IH]; intros t Hall.
  - cbn. rewrite app_nil_r. by destruct t.
  - apply Forall_cons in Hall as [Hr Hall].
    cbn [for_fold]. unfold mbind, M_bind, m_bind at 1.
    unfold mbind, M_bind, m_bind at 1.
    destruct (row_values_run r l tr) as (res & -> & Hok & _).
    rewrite (Hok Hr). unfold mret, M_ret, m_ret at 1.
    rewrite (IH _ Hall). cbn. by rewrite <- app_assoc.
Qed.

Lemma display_rows_fail {L} (t : table) (rs : list (gmap string string)) (l : L)
    (tr : list event) :
  Exists (λ r, ¬ has_fields r) rs →
  ∃ e,
    for_fold (λ table result, values ← row_values result; mret (add_row values table))
      t rs l tr
    = (Raise e, l, tr).
Proof.
  revert t. induction rs as [|r rs IH]; intros t Hex.
  - by apply Exists_nil in Hex.
  - cbn [for_fold]. unfold mbind, M_bind, m_bind at 1.
    unfold mbind, M_bind, m_bind at 1.
    destruct (row_values_run r l tr) as (res & -> & Hok & Hfail).
    destruct (has_fields_dec r) as [Hr|Hr].
    + rewrite (Hok Hr). unfold mret, M_ret, m_ret at 1.
      apply IH. apply Exists_cons in Hex as [Hbad|Hex]; [done | exact Hex].
    + destruct (Hfail Hr) as [e ->]. by exists e.
Qed.

Lemma display_results_run (table_error : table → option exn)
    (rs : list (gmap string string)) (w : world) (tr : list event) :
  Forall has_fields rs →
  display_results table_error rs w tr
  = match table_error (results_table rs) with
    | Some e => (Raise e, w, tr)
    | None =>
        (Ok tt,
         {| w_stdin := w_stdin w;
            w_tables := w_tables w ++ [results_table rs];
            w_files := w_files w |},
         tr)
    end.
Proof.
  intros Hall. unfold display_results.
  unfold mbind, M_bind, m_bind at 1.
  rewrite (display_rows_ok _ rs w tr Hall). reflexivity.
Qed.

(** X9. For records that hold the URL and the four tracked fields,
    [display_results] builds one table: its columns are URL and the four
    tracked names in upper case, it has one row for each record, in
    order, and each row holds the five fields of its record in the order
    of the columns.  What comes of it is the renderer's doing: when
    [rich] accepts the table it is shown and nothing else changes, and
    when [rich] rejects a cell [display_results] raises that exception
    and shows nothing. *)
Theorem X9_display_results_table (table_error : table → option exn)
    (rs : list (gmap string string)) (w : world) (tr : list event) :
  Forall has_fields rs →
  ∃ t,
    display_results table_error rs w tr
      = match table_error t with
        | Some e => (Raise e, w, tr)
        | None =>
            (Ok tt,
             {| w_stdin := w_stdin w; w_tables := w_tables w ++ [t];
                w_files := w_files w |},
             tr)
        end ∧
    col_header <$> tbl_columns t
      = ["URL"; "CONTENT-SECURITY-POLICY"; "X-FRAME-OPTIONS";
         "STRICT-TRANSPORT-SECURITY"; "REFERRER-POLICY"] ∧
    tbl_rows t = record_row <$> rs ∧
    Forall (λ row, length row = length (tbl_columns t)) (tbl_rows t).
Proof.
  intros Hall. exists (results_table rs).
  split; [by apply display_results_run|]. cbn [results_table tbl_columns tbl_rows].
  split; [reflexivity|]. split; [reflexivity|].
  apply Forall_fmap, Forall_forall. intros r _. reflexivity.
Qed.

Lemma X9_display_results_table_witness :
  (∃ t,
     display_results sample_table_error [build_result "https://example.com" ∅]
       (MkWorld [] [] ∅) []
       = (Ok tt, MkWorld [] [t] ∅, []) ∧
     tbl_rows t = [["https://example.com"; "Missing"; "Missing"; "Missing"; "Missing"]]) ∧
  (∃ e,
     display_results sample_table_error [build_result "https://example.com/?q=[/x]" ∅]
       (MkWorld [] [] ∅) []
       = (Raise e, MkWorld [] [] ∅, [])).
Proof.
  split.
  - destruct (X9_display_results_table sample_table_error
                [build_result "https://example.com" ∅] (MkWorld [] [] ∅) [])
      as (t & Hrun & _ & Hrows & _).
    + repeat constructor; by eexists.
    + exists t. split; [|exact Hrows].
      rewrite Hrun. unfold sample_table_error. rewrite Hrows. reflexivity.
  - destruct (X9_display_results_table sample_table_error
                [build_result "https://example.com/?q=[/x]" ∅] (MkWorld [] [] ∅) [])
      as (t & Hrun & _ & Hrows & _).
    + repeat constructor; by eexists.
    + rewrite Hrun. unfold sample_table_error. rewrite Hrows.
      eexists. reflexivity.
Defined.

(** X10. When one of the records lacks the URL or a tracked field,
    [display_results] raises and shows no table at all, not even the
    rows of the records before it. *)
Theorem X10_display_results_missing_field (table_error : table → option exn)
    (rs : list (gmap string string)) (w : world)
    (tr : list event) (r : gmap string string) (name : string) :
  r ∈ rs → name ∈ fieldnames → r !! name = None →
  ∃ e, display_results table_error rs w tr = (Raise e, w, tr).
Proof.
  intros Hr Hname Hnone.
  assert (Exists (λ r, ¬ has_fields r) rs) as Hex.
  { apply Exists_exists. exists r. split; [done|].
    intros Hall. unfold has_fields in Hall. rewrite Forall_forall in Hall.
    destruct (Hall name Hname) as [v Hv]. congruence. }
  unfold display_results. unfold mbind, M_bind, m_bind at 1.
  edestruct (display_rows_fail (L:=world)) as [e He]; [exact Hex|].
  rewrite He. by exists e.
Qed.

Lemma X10_display_results_missing_field_witness :
  ∃ e,
    display_results sample_table_error
      [build_result "https://example.com" ∅; {[ "URL" := "https://b.org" ]}]
      (MkWorld [] [] ∅) []
    = (Raise e, MkWorld [] [] ∅, []).
Proof.
  apply (X10_display_results_missing_field sample_table_error _ _ _
           {[ "URL" := "https://b.org" ]} "x-frame-options").
  - apply list_elem_of_lookup. exists 1. reflexivity.
  - apply list_elem_of_lookup. exists 2. reflexivity.
  - reflexivity.
Defined.


Lemma fieldnames_set :
  list_to_set fieldnames
  = ({[ "URL"; "content-security-policy"; "x-frame-options";
        "strict-transport-security"; "referrer-policy" ]} : gset string).
Proof.
  apply set_eq. intros k. rewrite elem_of_list_to_set, tracked_field_names.
  unfold fieldnames. by rewrite elem_of_cons.
Qed.

Lemma dict_to_list_tracked (r : gmap string string) :
  tracked_fields r → dict_to_list fieldnames r = Ok (record_row r).
Proof.
  intros Hdom. unfold dict_to_list. rewrite Hdom, fieldnames_set.
  rewrite difference_diag_L, elements_empty. by rewrite decide_True.
Qed.

(** A record with exactly the five fields is what its row says, field
    name by field name. *)
Lemma record_row_round_trip (r : gmap string string) :
  tracked_fields r → list_to_map (zip fieldnames (record_row r)) = r.
Proof.
  intros Hdom. pose proof (tracked_fields_has_fields r Hdom) as Hall.
  unfold has_fields, fieldnames, HEADERS_TO_CHECK in Hall.
  rewrite !Forall_cons in Hall.
  destruct Hall as ([v0 H0] & [v1 H1] & [v2 H2] & [v3 H3] & [v4 H4] & _).
  apply map_eq. intros k.
  unfold record_row, fieldnames, HEADERS_TO_CHECK.
  cbn [fmap list_fmap zip zip_with list_to_map foldr fst snd].
  rewrite H0, H1, H2, H3, H4. cbn [default].
  repeat (rewrite lookup_insert; case_decide; [subst k; unfold id; congruence|]).
  rewrite lookup_empty. symmetry. apply not_elem_of_dom.
  rewrite Hdom, tracked_field_names. unfold HEADERS_TO_CHECK.
  rewrite !elem_of_cons, elem_of_nil.
  intros [?|[?|[?|[?|[?|[]]]]]]; congruence.
Qed.

Lemma write_rows_tracked (filename : string) (rs : list (gmap string string))
    (stdin : list string) (tables : list table)
    (files : gmap string (list (list string))) (acc : list (list string))
    (tr : list event) :
  Forall tracked_fields rs →
  for_each
    (λ rowdict,
       row ← call_pure (dict_to_list fieldnames rowdict);
       write_row filename row)
    rs (MkWorld stdin tables (<[filename := acc]> files)) tr
  = (Ok tt, MkWorld stdin tables (<[filename := acc ++ (record_row <$> rs)]> files), tr).
Proof.
  revert acc. induction rs as [|r rs IH]; intros acc Hall.
  - cbn. by rewrite app_nil_r.
  - apply Forall_cons in Hall as [Hr Hall].
    cbn [for_each]. unfold mbind, M_bind, m_bind at 1.
    unfold mbind, M_bind, m_bind at 1. unfold call_pure at 1.
    rewrite (dict_to_list_tracked r Hr). unfold write_row at 1, modify at 1.
    cbn [w_stdin w_tables w_files]. rewrite alter_insert_eq.
    rewrite (IH _ Hall). cbn [fmap list_fmap]. by rewrite <- app_assoc.
Qed.

Lemma save_to_csv_ok (rs : list (gmap string string)) (filename : string)
    (w : world) (tr : list event) :
  Forall tracked_fields rs →
  save_to_csv rs filename w tr
  = (Ok tt,
     {| w_stdin := w_stdin w;
        w_tables := w_tables w;
        w_files := <[filename := fieldnames :: (record_row <$> rs)]> (w_files w) |},
     tr).
Proof.
  intros Hall. unfold save_to_csv. unfold mbind, M_bind, m_bind at 1.
  unfold open_w at 1, modify at 1.
  unfold mbind, M_bind, m_bind at 1. unfold write_row at 1, modify at 1.
  cbn [w_stdin w_tables w_files]. rewrite alter_insert_eq.
  change (["URL"] ++ HEADERS_TO_CHECK) with fieldnames.
  by rewrite (write_rows_tracked filename rs _ _ _ _ tr Hall).
Qed.

(** X11. For records that hold exactly the URL and the four tracked
    fields, [save_to_csv] does not raise; the file it names then holds
    the row of the field names followed by one row for each record, in
    order, whatever it held before, and the other files are as they
    were.  Pairing the field names with a row gives back the record. *)
Theorem X11_save_to_csv_rows (rs : list (gmap string string)) (filename : string)
    (w : world) (tr : list event) :
  Forall tracked_fields rs →
  save_to_csv rs filename w tr
    = (Ok tt,
       {| w_stdin := w_stdin w;
          w_tables := w_tables w;
          w_files :=
            <[filename :=
                ["URL"; "content-security-policy"; "x-frame-options";
                 "strict-transport-security"; "referrer-policy"]
                  :: (record_row <$> rs)]> (w_files w) |},
       tr) ∧
  Forall (λ r, list_to_map (zip fieldnames (record_row r)) = r) rs.
Proof.
  intros Hall. split.
  - by rewrite (save_to_csv_ok rs filename w tr Hall).
  - eapply Forall_impl; [exact Hall|]. apply record_row_round_trip.
Qed.

Lemma X11_save_to_csv_rows_witness :
  w_files
    (save_to_csv [build_result "https://example.com" ∅] "out.csv"
       (MkWorld [] [] {[ "out.csv" := [["stale"]] ]}) []).1.2
    !! "out.csv"
  = Some [ ["URL"; "content-security-policy"; "x-frame-options";
            "strict-transport-security"; "referrer-policy"];
           ["https://example.com"; "Missing"; "Missing"; "Missing"; "Missing"] ].
Proof.
  destruct (X11_save_to_csv_rows [build_result "https://example.com" ∅] "out.csv"
              (MkWorld [] [] {[ "out.csv" := [["stale"]] ]}) [])
    as [Hrun _].
  - constructor; [apply build_result_fields | constructor].
  - rewrite Hrun. reflexivity.
Defined.

(** * Reading URLs and [main] *)

Lemma lstrip_no_leading_space (s : string) : no_leading_space (lstrip s).
Proof.
  induction s as [|c s IH]; [done|].
  cbn [lstrip]. by destruct (is_space c) eqn:Hc.
Qed.

Lemma lstrip_id (s : string) : no_leading_space s → lstrip s = s.
Proof. destruct s as [|c s]; [done|]. cbn. by intros ->. Qed.

Lemma rstrip_no_leading_space (s : string) :
  no_leading_space s → no_leading_space (rstrip s).
Proof.
  destruct s as [|c s]; [done|]. cbn [no_leading_space rstrip]. intros Hc.
  rewrite Hc. by destruct (rstrip s).
Qed.

Lemma rstrip_idem (s : string) : rstrip (rstrip s) = rstrip s.
Proof.
  induction s as [|c s IH]; [done|].
  cbn [rstrip]. destruct (rstrip s) as [|d r] eqn:Hr.
  - destruct (is_space c) eqn:Hc; [done|]. cbn [rstrip]. by rewrite Hc.
  - change (rstrip (String c (String d r)))
      with (match rstrip (String d r) with
            | EmptyString => if is_space c then EmptyString else String c EmptyString
            | r' => String c r'
            end).
    by rewrite IH.
Qed.

Lemma strip_idem (s : string) : strip (strip s) = strip s.
Proof.
  unfold strip.
  rewrite (lstrip_id (rstrip (lstrip s))).
  - apply rstrip_idem.
  - apply rstrip_no_leading_space, lstrip_no_leading_space.
Qed.

Lemma read_urls_until_blank (lines : list string) (blank : string) (rest acc : list string) :
  Forall (λ line, strip line ≠ "") lines → strip blank = "" →
  read_urls (lines ++ blank :: rest) acc = (Ok (acc ++ (strip <$> lines)), rest).
Proof.
  intros Hlines Hblank. revert acc.
  induction Hlines as [|line lines Hline _ IH]; intros acc; cbn [app read_urls].
  - rewrite decide_True by done. by rewrite app_nil_r.
  - rewrite decide_False by done. rewrite IH. cbn [fmap list_fmap].
    by rewrite <- app_assoc.
Qed.

Lemma read_urls_eof (stdin acc : list string) :
  Forall (λ line, strip line ≠ "") stdin →
  read_urls stdin acc = (Raise EOFError, []).
Proof.
  intros Hlines. revert acc.
  induction Hlines as [|line lines Hline _ IH]; intros acc; cbn [read_urls]; [done|].
  by rewrite decide_False.
Qed.

(** X12. The reading loop returns the lines before the first blank one,
    each without the white space around it, and leaves what follows the
    blank line unread.  None of the URLs it returns is empty or has white
    space around it. *)
Theorem X12_read_urls_until_blank (lines : list string) (blank : string)
    (rest : list string) :
  Forall (λ line, strip line ≠ "") lines → strip blank = "" →
  read_urls (lines ++ blank :: rest) [] = (Ok (strip <$> lines), rest) ∧
  Forall (λ url, url ≠ "" ∧ strip url = url) (strip <$> lines).
Proof.
  intros Hlines Hblank. split.
  - by rewrite read_urls_until_blank.
  - apply Forall_fmap. eapply Forall_impl; [exact Hlines|].
    intros line Hline. cbn. split; [done | apply strip_idem].
Qed.

Lemma X12_read_urls_until_blank_witness :
  read_urls ["  example.com "; "b.org"; "   "; "c.net"] []
  = (Ok ["example.com"; "b.org"], ["c.net"]).
Proof.
  destruct (X12_read_urls_until_blank ["  example.com "; "b.org"] "   " ["c.net"])
    as [Hrun _].
  - repeat constructor; discriminate.
  - reflexivity.
  - exact Hrun.
Defined.

Section MainProperties.

Context (validators_url : string → bool).
Context (markup_error : string → option exn).
Context (requests_get : list event → request → result response).
Context (table_error : table → option exn).
Context (timestamp : string).

Local Abbreviation run_main :=
  (main validators_url markup_error requests_get table_error timestamp).

(** The records a batch returns have exactly the five fields. *)
Lemma process_urls_tracked (urls : list string) (tr : list event)
    (rs : list (gmap string string)) (tr' : list event) :
  process_urls validators_url markup_error requests_get urls tt tr = (Ok rs, tt, tr') →
  Forall tracked_fields rs.
Proof.
  intros Hbatch. apply process_urls_records in Hbatch.
  eapply Forall_impl; [exact Hbatch|].
  intros r (n & tr0 & headers & tr1 & _ & ->). apply build_result_fields.
Qed.

(** X13. When no URL is given on the command line and standard input
    ends before a blank line, [main] raises the end-of-file error of
    [input], whether or not URLs were entered; by then it has printed the
    banner and the two prompts, and it has made no request. *)
Theorem X13_main_end_of_input (a : args) (w : world) (tr : list event) :
  args_urls a = [] →
  Forall (λ line, strip line ≠ "") (w_stdin w) →
  run_main a w tr
  = (Raise EOFError,
     {| w_stdin := []; w_tables := w_tables w; w_files := w_files w |},
     tr ++ banner ++ prompts).
Proof.
  intros Hargs Hlines.
  unfold main, mbind, M_bind, m_bind, console_print_fixed, mret, M_ret, m_ret, input_urls.
  rewrite Hargs. rewrite decide_True by done.
  rewrite (read_urls_eof _ [] Hlines). by rewrite <- !app_assoc.
Qed.

(** X14. With more than 20 URLs on the command line, [main] prints the
    banner and the error that names the limit and the number given, and
    exits with status 1: it reads no input, makes no request, shows no
    table and writes no file. *)
Theorem X14_main_too_many_urls (a : args) (w : world) (tr : list event) :
  20 < length (args_urls a) →
  run_main a w tr
  = (Ok (Exited 1), w,
     tr ++ banner ++ [Print (too_many_line (length (args_urls a)))]).
Proof.
  intros Hlen.
  assert (args_urls a ≠ []) as Hne.
  { intros Heq. rewrite Heq in Hlen. cbn in Hlen. lia. }
  unfold main, mbind, M_bind, m_bind, console_print_fixed, mret, M_ret, m_ret.
  rewrite decide_False by done. rewrite decide_False by done.
  rewrite decide_True by done. by rewrite <- !app_assoc.
Qed.

(** X15. With no URL on the command line and a blank first line on
    standard input, [main] prints the banner, the two prompts and the
    message that no URL was provided, and exits with status 1; it has
    read that one line and made no request. *)
Theorem X15_main_no_urls (a : args) (w : world) (tr : list event)
    (blank : string) (rest : list string) :
  args_urls a = [] → w_stdin w = blank :: rest → strip blank = "" →
  run_main a w tr
  = (Ok (Exited 1),
     {| w_stdin := rest; w_tables := w_tables w; w_files := w_files w |},
     tr ++ banner ++ prompts ++ [Print "[red]No URLs provided. Exiting.[/red]"]).
Proof.
  intros Hargs Hstdin Hblank.
  unfold main, mbind, M_bind, m_bind, console_print_fixed, mret, M_ret, m_ret, input_urls.
  rewrite Hargs. rewrite decide_True by done.
  rewrite Hstdin. cbn [read_urls]. rewrite (decide_True _ _ Hblank).
  rewrite decide_True by done. by rewrite <- !app_assoc.
Qed.

(** X16. With between 1 and 20 URLs on the command line, [main] runs the
    batch on the URLs as given, after the banner and the announcement,
    and what it does next follows the batch.  When the batch raises,
    [main] raises the same exception and shows and writes nothing.  When
    the batch returns records, [main] builds the table with the row of
    each record; when [rich] rejects the table, [main] raises and writes
    nothing.  Otherwise the table is shown and, without the save option,
    [main] returns; with it, [main] writes the CSV file named after the
    time stamp, with the header row and the same rows, and then reports
    it and returns, or raises when [rich] rejects the report, the file
    being written already. *)
Theorem X16_main_processes_arguments (a : args) (w : world) (tr : list event)
    (res : result (list (gmap string string))) (tr1 : list event) :
  args_urls a ≠ [] → length (args_urls a) ≤ 20 →
  process_urls validators_url markup_error requests_get (args_urls a) tt
    (tr ++ banner ++ announcement) = (res, tt, tr1) →
  run_main a w tr
  = match res with
    | Raise e => (Raise e, w, tr1)
    | Ok rs =>
        match table_error (results_table rs) with
        | Some e => (Raise e, w, tr1)
        | None =>
            if args_save a then
              let w' :=
                {| w_stdin := w_stdin w;
                   w_tables := w_tables w ++ [results_table rs];
                   w_files :=
                     <[csv_filename timestamp := fieldnames :: (record_row <$> rs)]>
                       (w_files w) |} in
              match markup_error (saved_line (csv_filename timestamp)) with
              | Some e => (Raise e, w', tr1)
              | None =>
                  (Ok Returned, w', tr1 ++ [Print (saved_line (csv_filename timestamp))])
              end
            else
              (Ok Returned,
               {| w_stdin := w_stdin w;
                  w_tables := w_tables w ++ [results_table rs];
                  w_files := w_files w |},
               tr1)
        end
    end.
Proof.
  intros Hne Hlen Hrun.
  unfold main, mbind, M_bind, m_bind, console_print_fixed, mret, M_ret, m_ret.
  rewrite decide_False by done. rewrite decide_False by done.
  rewrite decide_False by (unfold MAX_URLS; lia).
  unfold call. rewrite <- !app_assoc. cbn [app].
  change (tr ++ _) with (tr ++ banner ++ announcement). rewrite Hrun.
  destruct res as [rs|e]; [|reflexivity].
  pose proof (process_urls_tracked _ _ _ _ Hrun) as Hall.
  rewrite (display_results_run table_error rs w tr1
             (Forall_impl _ _ _ Hall tracked_fields_has_fields)).
  destruct (table_error (results_table rs)) as [e|]; [reflexivity|].
  destruct (args_save a).
  - rewrite (save_to_csv_ok rs (csv_filename timestamp) _ tr1 Hall).
    cbn [w_stdin w_tables w_files]. unfold console_print.
    by destruct (markup_error (saved_line (csv_filename timestamp))).
  - reflexivity.
Qed.

End MainProperties.

Lemma X13_main_end_of_input_witness :
  main sample_validator sample_markup net_hsts sample_table_error "20260101_000000"
    (MkArgs [] false) (MkWorld ["example.com"] [] ∅) []
  = (Raise EOFError, MkWorld [] [] ∅, [] ++ banner ++ prompts).
Proof.
  apply (X13_main_end_of_input sample_validator sample_markup net_hsts
           sample_table_error "20260101_000000"
           (MkArgs [] false) (MkWorld ["example.com"] [] ∅) []).
  - reflexivity.
  - repeat constructor. discriminate.
Defined.

Lemma X14_main_too_many_urls_witness :
  main sample_validator sample_markup net_hsts sample_table_error "20260101_000000"
    (MkArgs (replicate 21 "example.com") true) (MkWorld [] [] ∅) []
  = (Ok (Exited 1), MkWorld [] [] ∅,
     [] ++ banner ++ [Print "[red]Error: Maximum 20 URLs allowed. You provided 21.[/red]"]).
Proof.
  apply (X14_main_too_many_urls sample_validator sample_markup net_hsts
           sample_table_error "20260101_000000"
           (MkArgs (replicate 21 "example.com") true) (MkWorld [] [] ∅) []).
  apply Nat.ltb_lt. reflexivity.
Defined.

Lemma X15_main_no_urls_witness :
  main sample_validator sample_markup net_hsts sample_table_error "20260101_000000"
    (MkArgs [] true) (MkWorld [" "; "example.com"] [] ∅) []
  = (Ok (Exited 1), MkWorld ["example.com"] [] ∅,
     [] ++ banner ++ prompts ++ [Print "[red]No URLs provided. Exiting.[/red]"]).
Proof.
  apply (X15_main_no_urls sample_validator sample_markup net_hsts sample_table_error
           "20260101_000000" (MkArgs [] true)
           (MkWorld [" "; "example.com"] [] ∅) [] " " ["example.com"]);
    reflexivity.
Defined.

(** A run that saves its one record, and a run that the batch brings
    down: the second input fails validation and its error line is
    rejected by the console. *)
Lemma X16_main_processes_arguments_witness :
  (∃ rs tr1,
     main sample_validator sample_markup net_hsts sample_table_error "20260101_000000"
       (MkArgs ["example.com"] true) (MkWorld [] [] ∅) []
     = (Ok Returned,
        MkWorld [] [results_table rs]
          (<["headerhawk_results_20260101_000000.csv"
               := fieldnames :: (record_row <$> rs)]> ∅),
        tr1 ++ [Print "[green]Results saved to headerhawk_results_20260101_000000.csv[/green]"])) ∧
  (∃ e tr1,
     main sample_validator sample_markup net_hsts sample_table_error "20260101_000000"
       (MkArgs ["example.com"; "not a url [/x]"] true) (MkWorld [] [] ∅) []
     = (Raise e, MkWorld [] [] ∅, tr1)).
Proof.
  split.
  - eexists _, _.
    rewrite (X16_main_processes_arguments sample_validator sample_markup net_hsts
               sample_table_error "20260101_000000"
               (MkArgs ["example.com"] true) (MkWorld [] [] ∅) [] _ _
               ltac:(discriminate) ltac:(apply Nat.leb_le; reflexivity) eq_refl).
    reflexivity.
  - eexists _, _.
    rewrite (X16_main_processes_arguments sample_validator sample_markup net_hsts
               sample_table_error "20260101_000000"
               (MkArgs ["example.com"; "not a url [/x]"] true) (MkWorld [] [] ∅) [] _ _
               ltac:(discriminate) ltac:(apply Nat.leb_le; reflexivity) eq_refl).
    reflexivity.
Defined.
